(** * burstcache: a short-term response cache in front of an HTTP handler

    Shallow embedding of [cache.go], [keymaker.go] and the interface file of
    the package.  The recorder ([ResponseCacher]) and the store methods of
    [Cache] are pure functions; the middleware ([Chain], [regenerate] and the
    two-phase decay closure) is a small program whose atomic actions are the
    lock-protected store methods, run either alone or interleaved with other
    goroutines. *)

From stdpp Require Import gmap strings list fin_maps.
From Stdlib Require Import ZArith.
From Stdlib.Strings Require Import Ascii Byte.

Local Open Scope Z_scope.

(** ** The part of net/http and net/textproto the package relies on *)

(** [textproto.validHeaderFieldByte]: the token characters of RFC 7230. *)
Definition validHeaderFieldByte (c : ascii) : bool :=
  let n := N_of_ascii c in
  ((48 <=? n) && (n <=? 57))%N || ((65 <=? n) && (n <=? 90))%N
  || ((97 <=? n) && (n <=? 122))%N
  || bool_decide (c ∈ String.list_ascii_of_string "!#$%&'*+-.^_`|~").

(** The re-casing loop of [textproto.canonicalMIMEHeaderKey]: upper case for
    the first letter and after each dash, lower case elsewhere. *)
Fixpoint canonicalCase (upper : bool) (s : string) : string :=
  match s with
  | EmptyString => EmptyString
  | String c s' =>
      let n := N_of_ascii c in
      let c' :=
        if upper && ((97 <=? n) && (n <=? 122))%N then ascii_of_N (n - 32)
        else if negb upper && ((65 <=? n) && (n <=? 90))%N then ascii_of_N (n + 32)
        else c in
      String c' (canonicalCase (bool_decide (c' = "-"%char)) s')
  end.

(** [textproto.CanonicalMIMEHeaderKey]: a key holding a byte that is not a
    token character is returned unchanged. *)
Definition CanonicalMIMEHeaderKey (s : string) : string :=
  if forallb validHeaderFieldByte (String.list_ascii_of_string s)
  then canonicalCase true s else s.

(** [http.Header] is [map[string][]string]. *)
Abbreviation http_Header := (gmap string (list string)).

Definition Header_Set (key value : string) (h : http_Header) : http_Header :=
  <[CanonicalMIMEHeaderKey key := [value]]> h.

Definition Header_Values (key : string) (h : http_Header) : list string :=
  default [] (h !! CanonicalMIMEHeaderKey key).

Definition Header_Add (key value : string) (h : http_Header) : http_Header :=
  <[CanonicalMIMEHeaderKey key := Header_Values key h ++ [value]]> h.

Definition Header_Del (key : string) (h : http_Header) : http_Header :=
  delete (CanonicalMIMEHeaderKey key) h.

Definition Header_Get (key : string) (h : http_Header) : string :=
  hd EmptyString (Header_Values key h).

(** A live [http.ResponseWriter], seen from the package: the header map it
    hands out, and what it has been told through [WriteHeader] and [Write]. *)
Record http_ResponseWriter : Type := mkWriter {
  rw_Header : http_Header;
  rw_codes : list Z;
  rw_body : list byte
}.

Definition newWriter : http_ResponseWriter :=
  {| rw_Header := ∅; rw_codes := []; rw_body := [] |}.

Definition rw_setHeader (h : http_Header) (w : http_ResponseWriter) : http_ResponseWriter :=
  {| rw_Header := h; rw_codes := rw_codes w; rw_body := rw_body w |}.

Definition rw_WriteHeader (code : Z) (w : http_ResponseWriter) : http_ResponseWriter :=
  {| rw_Header := rw_Header w; rw_codes := rw_codes w ++ [code]; rw_body := rw_body w |}.

Definition rw_Write (buf : list byte) (w : http_ResponseWriter) : http_ResponseWriter :=
  {| rw_Header := rw_Header w; rw_codes := rw_codes w; rw_body := rw_body w ++ buf |}.

(** [fmt.Fprintln(w, s)]: one [Write] of the operand followed by a newline. *)
Definition Fprintln (w : http_ResponseWriter) (s : list byte) : http_ResponseWriter :=
  rw_Write (s ++ [x0a]) w.

(** [String] of [bytes.Buffer]: the contents, or the five bytes of <nil> on
    a nil buffer. *)
Definition Buffer_String (b : option (list byte)) : list byte :=
  match b with
  | Some bs => bs
  | None => String.list_byte_of_string "<nil>"
  end.

Record http_Request : Type := mkRequest {
  URL_Path : string;
  URL_RawQuery : string
}.

(** What a handler does to the [http.ResponseWriter] it is given. *)
Inductive WriterCall : Type :=
| CallHeaderSet (key value : string)
| CallHeaderAdd (key value : string)
| CallHeaderDel (key : string)
| CallHeaderAssign (key : string) (vals : list string)
| CallWriteHeader (code : Z)
| CallWrite (buf : list byte)
| CallFlush.

(** An [http.Handler]: the calls [ServeHTTP] makes on its writer, given the
    request and the number of invocations that came before (a handler's
    answer may change from one invocation to the next). *)
Definition http_Handler : Type := nat → http_Request → list WriterCall.

(** A call that only touches the header map. *)
Definition isHeaderCall (op : WriterCall) : bool :=
  match op with
  | CallHeaderSet _ _ | CallHeaderAdd _ _ | CallHeaderDel _ | CallHeaderAssign _ _ => true
  | _ => false
  end.

(** The [WriteHeader] call an operation makes on a recorder that has not
    written its header yet: the explicit one, or the [WriteHeader(200)] that
    [Write] and [Flush] issue themselves. *)
Definition headerWritten (op : WriterCall) : option Z :=
  match op with
  | CallWriteHeader code => Some code
  | CallWrite _ | CallFlush => Some 200
  | _ => None
  end.

(** An explicit [WriteHeader] call. *)
Definition isWriteHeader (op : WriterCall) : bool :=
  match op with
  | CallWriteHeader _ => true
  | _ => false
  end.

(** ** cache.go: the recorder

    [ResponseCacher] implements [http.ResponseWriter] and caches a response
    as it is written.  [Body] is a pointer in the source and may be nil; a nil
    [Head] behaves as the empty map in every method and is not told apart. *)
Module ResponseCacher.

Record t : Type := mk {
  Code : Z;                      (* the HTTP response code from WriteHeader *)
  Head : http_Header;            (* the HTTP response headers *)
  Body : option (list byte);     (* if non-nil, the buffer written data goes to *)
  Done : bool;
  wroteHeader : bool;
  id : Z;                        (* unique identifier of this cache *)
  fresh : bool;                  (* if fresh, serve it; if not, serve and ask for a refresh *)
  regen : bool                   (* a refreshed response is being generated *)
}.

Definition set_Code (v : Z) (c : t) : t :=
  mk v (Head c) (Body c) (Done c) (wroteHeader c) (id c) (fresh c) (regen c).
Definition set_Head (v : http_Header) (c : t) : t :=
  mk (Code c) v (Body c) (Done c) (wroteHeader c) (id c) (fresh c) (regen c).
Definition set_Body (v : option (list byte)) (c : t) : t :=
  mk (Code c) (Head c) v (Done c) (wroteHeader c) (id c) (fresh c) (regen c).
Definition set_Done (v : bool) (c : t) : t :=
  mk (Code c) (Head c) (Body c) v (wroteHeader c) (id c) (fresh c) (regen c).
Definition set_wroteHeader (v : bool) (c : t) : t :=
  mk (Code c) (Head c) (Body c) (Done c) v (id c) (fresh c) (regen c).
Definition set_fresh (v : bool) (c : t) : t :=
  mk (Code c) (Head c) (Body c) (Done c) (wroteHeader c) (id c) v (regen c).
Definition set_regen (v : bool) (c : t) : t :=
  mk (Code c) (Head c) (Body c) (Done c) (wroteHeader c) (id c) (fresh c) v.

Definition NewResponseCacher (id : Z) : t :=
  {| Head := ∅; Body := Some []; Code := 0; Done := false;
     wroteHeader := false; id := id; fresh := true; regen := false |}.

(** The [range c.Head] loop of [Serve], over the pairs in the order the
    iteration visits them (Go leaves that order unspecified). *)
Definition replayHead (order : list (string * list string)) (h : http_Header) : http_Header :=
  foldl (λ h kv,
           match kv.2 with
           | v0 :: _ => Header_Set kv.1 v0 h     (* len(val) > 0: Set(key, val[0]) *)
           | [] => h
           end) h order.

Definition Serve_in (order : list (string * list string))
    (c : t) (w : http_ResponseWriter) (mark : bool) : http_ResponseWriter :=
  let h := replayHead order (rw_Header w) in
  let h := if mark then Header_Set "X-From-BurstCache" "1" h else h in
  let w := rw_setHeader h w in
  let w := rw_WriteHeader (Code c) w in
  Fprintln w (Buffer_String (Body c)).

(** [Serve] with the iteration order fixed to the enumeration of the map. *)
Definition Serve (c : t) (w : http_ResponseWriter) (mark : bool) : http_ResponseWriter :=
  Serve_in (map_to_list (Head c)) c w mark.

Definition Header (c : t) : http_Header := Head c.

Definition WriteHeader (code : Z) (c : t) : t :=
  let c := if negb (wroteHeader c) then set_Code code c else c in
  set_wroteHeader true c.

(** [Write] returns [len(buf), nil]. *)
Definition Write (buf : list byte) (c : t) : t * (Z * option string) :=
  let c := if negb (wroteHeader c) then WriteHeader 200 c else c in
  let c := match Body c with
           | Some b => set_Body (Some (b ++ buf)) c
           | None => c
           end in
  (c, (Z.of_nat (length buf), None)).

Definition Flush (c : t) : t :=
  let c := if negb (wroteHeader c) then WriteHeader 200 c else c in
  set_Done true c.

(** One call of a handler on the recorder it was handed, and a whole
    [ServeHTTP] run. *)
Definition call (op : WriterCall) (c : t) : t :=
  match op with
  | CallHeaderSet k v => set_Head (Header_Set k v (Header c)) c
  | CallHeaderAdd k v => set_Head (Header_Add k v (Header c)) c
  | CallHeaderDel k => set_Head (Header_Del k (Header c)) c
  | CallHeaderAssign k vs => set_Head (<[k := vs]> (Header c)) c
  | CallWriteHeader code => WriteHeader code c
  | CallWrite buf => (Write buf c).1
  | CallFlush => Flush c
  end.

Definition calls (ops : list WriterCall) (c : t) : t := foldl (λ c op, call op c) c ops.

End ResponseCacher.

(** A recorder holding a header with two values, and a two-byte body. *)
Definition cookies : ResponseCacher.t :=
  ResponseCacher.calls
    [CallHeaderAdd "Set-Cookie" "a=1"; CallHeaderAdd "Set-Cookie" "b=2";
     CallWrite [x68; x69]]
    (ResponseCacher.NewResponseCacher 1).

(** A recorder holding one header with one value, built field by field. *)
Definition plain : ResponseCacher.t :=
  ResponseCacher.set_Head {[ "Content-Type"%string := ["text/plain"%string] ]}
    (ResponseCacher.NewResponseCacher 1).

(** As long as no explicit [WriteHeader] was called, the status is either
    still unwritten or the implicit 200. *)
Definition implicitStatus (c : ResponseCacher.t) : Prop :=
  ResponseCacher.wroteHeader c = false
  ∨ (ResponseCacher.wroteHeader c = true ∧ ResponseCacher.Code c = 200).

(** ** keymaker.go and the interfaces of the package

    A [Keyer] produces a key given the response writer (here its handle) and
    the request.  [Keymaker] is the vanilla implementation: the url path. *)
Record Keyer : Type := mkKeyer {
  Key : nat → http_Request → string
}.

Definition Keymaker_Key (w : nat) (r : http_Request) : string :=
  let key := URL_Path r in
  key.

Definition Keymaker : Keyer := {| Key := Keymaker_Key |}.

(** ** cache.go: the store and the middleware *)
Module Cache.

(** [caches] maps a key to a pointer to a recorder; the pointer may be nil.
    The mutex is not a field here: each method below is one critical
    section, and is one atomic action of the programs further down. *)
Record t : Type := mk {
  Keymaker : Keyer;              (* provides unique keys given the request parameters *)
  TTL : Z;                       (* time to live *)
  TTD : Z;                       (* time to die *)
  caches : gmap string (option ResponseCacher.t)
}.

Definition set_caches (m : gmap string (option ResponseCacher.t)) (c : t) : t :=
  mk (Keymaker c) (TTL c) (TTD c) m.

(** Factory function.  The logger argument of the source goes to a field
    the struct does not have; it is left out. *)
Definition NewCache (keymaker : Keyer) (ttl ttd : Z) : t :=
  {| Keymaker := keymaker; TTL := ttl; TTD := ttd; caches := ∅ |}.

(** Replace a stale cache with a newly filled response. *)
Definition swap (c : t) (key : string) (cache : ResponseCacher.t) : t :=
  set_caches (<[key := Some cache]> (caches c)) c.

(** Mark the cache as stale.  [None] is the nil pointer dereference of
    [c.caches[key].fresh = false] on a missing or nil entry. *)
Definition stale (c : t) (key : string) : option t :=
  match caches c !! key with
  | Some (Some e) =>
      Some (set_caches (<[key := Some (ResponseCacher.set_fresh false e)]> (caches c)) c)
  | _ => None
  end.

(** [c.caches[key] = nil]. *)
Definition kill (c : t) (key : string) : t :=
  set_caches (<[key := None]> (caches c)) c.

(** Mark the cache as regenerating; [None] as in [stale]. *)
Definition regen (c : t) (key : string) : option t :=
  match caches c !! key with
  | Some (Some e) =>
      Some (set_caches (<[key := Some (ResponseCacher.set_regen true e)]> (caches c)) c)
  | _ => None
  end.

(** Serve the cached response onto [w]; [None] is the nil pointer
    dereference inside [Serve] on a missing or nil entry, which happens
    before [w] is touched. *)
Definition serve (c : t) (key : string) (w : http_ResponseWriter) (mark : bool)
    : option http_ResponseWriter :=
  match caches c !! key with
  | Some (Some e) => Some (ResponseCacher.Serve e w mark)
  | _ => None
  end.

Definition status (c : t) (key : string) : bool * Z * bool * bool :=
  match caches c !! key with
  | Some (Some cache) =>
      (true, ResponseCacher.id cache, ResponseCacher.fresh cache, ResponseCacher.regen cache)
  | _ => (false, 0, false, false)
  end.

(** *** Goroutines

    What the goroutines share: the cache, the live response writers (by
    handle), the number of downstream invocations so far, and the values
    math/rand will hand out. *)
Record World : Type := mkWorld {
  cache : t;
  writers : gmap nat http_ResponseWriter;
  invocations : nat;
  entropy : list Z
}.

Definition set_cache (c : t) (s : World) : World :=
  mkWorld c (writers s) (invocations s) (entropy s).
Definition set_writers (m : gmap nat http_ResponseWriter) (s : World) : World :=
  mkWorld (cache s) m (invocations s) (entropy s).
Definition set_invocations (n : nat) (s : World) : World :=
  mkWorld (cache s) (writers s) n (entropy s).
Definition set_entropy (l : list Z) (s : World) : World :=
  mkWorld (cache s) (writers s) (invocations s) l.

(** The writer behind a handle; a handle not written to yet is blank. *)
Definition writer (s : World) (w : nat) : http_ResponseWriter :=
  default newWriter (writers s !! w).

(** An atomic action; [None] is a panic. *)
Definition action (A : Type) : Type := World → option (A * World).

(** A goroutine's remaining work: atomic actions in sequence, and [go]. *)
Inductive prog : Type :=
| Return : prog
| Atomic {A : Type} (a : action A) (k : A → prog) : prog
| Go (child : prog) (k : prog) : prog.

(** A statement: what it does before the rest [k] of the function. *)
Definition block : Type := prog → prog.

Definition skip : block := λ k, k.
Definition call (a : action unit) : block := λ k, Atomic a (λ _, k).

Definition c_Key (w : nat) (r : http_Request) : action string :=
  λ s, Some (Key (Keymaker (cache s)) w r, s).

Definition c_status (key : string) : action (bool * Z * bool * bool) :=
  λ s, Some (status (cache s) key, s).

Definition c_swap (key : string) (e : ResponseCacher.t) : action unit :=
  λ s, Some (tt, set_cache (swap (cache s) key e) s).

Definition c_stale (key : string) : action unit :=
  λ s, match stale (cache s) key with
       | Some c' => Some (tt, set_cache c' s)
       | None => None
       end.

Definition c_kill (key : string) : action unit :=
  λ s, Some (tt, set_cache (kill (cache s) key) s).

Definition c_regen (key : string) : action unit :=
  λ s, match regen (cache s) key with
       | Some c' => Some (tt, set_cache c' s)
       | None => None
       end.

Definition c_serve (key : string) (w : nat) (mark : bool) : action unit :=
  λ s, match serve (cache s) key (writer s w) mark with
       | Some w' => Some (tt, set_writers (<[w := w']> (writers s)) s)
       | None => None
       end.

(** [rand.Intn(n)]. *)
Definition rand_Intn (n : Z) : action Z :=
  λ s, Some (hd 0 (entropy s) `mod` n, set_entropy (tl (entropy s)) s).

(** [next.ServeHTTP(cache, r)]: the handler fills the recorder it is given. *)
Definition ServeHTTP (next : http_Handler) (e : ResponseCacher.t) (r : http_Request)
    : action ResponseCacher.t :=
  λ s, Some (ResponseCacher.calls (next (invocations s) r) e,
             set_invocations (S (invocations s)) s).

(** [time.Sleep(d)]: time is not modelled, a sleep is a scheduling point. *)
Definition time_Sleep (d : t → Z) : action unit := λ s, Some (tt, s).

Local Notation "x <~ a ;; k" := (Atomic a (λ x, k))
  (at level 200, a at level 99, k at level 200, right associativity, only parsing).
Local Notation "a ;;; k" := (Atomic a (λ _, k))
  (at level 200, k at level 200, right associativity, only parsing).

(** The goroutine scheduled at the end of [regenerate]: two-phase cache
    expiration.  First half: when ttl expires, cache becomes stale. *)
Definition decay_ttl (key : string) (id : Z) : block := λ k,
  time_Sleep TTL ;;;
  st <~ c_status key ;;
  let '(exists_, stale_id, fresh, _) := st in
  (if exists_ && fresh then
     if stale_id =? id then call (c_stale key) else skip
   else skip)
  k.

(** Second half: when ttd expires, cache is killed. *)
Definition decay_ttd (key : string) (id : Z) : block := λ k,
  time_Sleep TTD ;;;
  st <~ c_status key ;;
  let '(exists_, stale_id, fresh, regen) := st in
  (if exists_ && negb fresh && negb regen then
     if stale_id =? id then call (c_kill key) else skip
   else skip)
  k.

Definition decay (key : string) (id : Z) : prog :=
  decay_ttl key id (decay_ttd key id Return).

Definition regenerate (next : http_Handler) (key : string) (w : nat) (r : http_Request)
    : block := λ k,
  id <~ rand_Intn 1000000 ;;
  let cache := ResponseCacher.NewResponseCacher id in
  (* down the rabbit hole *)
  cache <~ ServeHTTP next cache r ;;
  (* swap stale with fresh result *)
  c_swap key cache ;;;
  (* schedule two-phase cache expiration *)
  Go (decay key id)
  k.

(** The handler function [f] that [Chain next] returns, on writer [w] and
    request [r]. *)
Definition Chain (next : http_Handler) (w : nat) (r : http_Request) : prog :=
  key <~ c_Key w r ;;
  st <~ c_status key ;;
  let '(exists_, _, fresh, regen) := st in
  if negb exists_ then
    (* fill cache and wait for it *)
    regenerate next key w r (
    (* serve from cache without marking the response *)
    c_serve key w false ;;;
    Return)
  else
    (if negb fresh && negb regen then
       λ k,
       (* mark this cache is regenerating so other requests don't stampede *)
       c_regen key ;;;
       (* refill cache but this time do not wait for it *)
       Go (regenerate next key w r Return)
       k
     else skip) (
    (* serve from cache, marking the response as cached *)
    c_serve key w true ;;;
    Return).

(** *** Running goroutines *)

(** A goroutine running alone to its end: the resulting world and the
    goroutines it started (left unscheduled); [None] when it panics. *)
Fixpoint run (p : prog) (s : World) : option (World * list prog) :=
  match p with
  | Return => Some (s, [])
  | Atomic a k =>
      match a s with
      | Some (x, s') => run (k x) s'
      | None => None
      end
  | Go child k =>
      match run k s with
      | Some (s', l) => Some (s', child :: l)
      | None => None
      end
  end.

(** One step of one goroutine. *)
Inductive outcome : Type :=
| Stepped (p : prog) (s : World) (spawned : list prog)
| Fault
| Halted.

Definition step1 (p : prog) (s : World) : outcome :=
  match p with
  | Return => Halted
  | Atomic a k =>
      match a s with
      | Some (x, s') => Stepped (k x) s' []
      | None => Fault
      end
  | Go child k => Stepped k s [child]
  end.

(** A goroutine that panicked is [Crashed] and takes no further step; what
    the panic does to the rest of the process is left out. *)
Inductive goroutine : Type :=
| Live (p : prog)
| Crashed.

Record System : Type := mkSystem {
  world : World;
  pool : list goroutine
}.

(** The scheduler picks goroutine [i]; new goroutines join the end of the
    pool.  Picking a finished or crashed goroutine changes nothing. *)
Definition step (i : nat) (σ : System) : System :=
  match pool σ !! i with
  | Some (Live p) =>
      match step1 p (world σ) with
      | Stepped p' s' spawned =>
          mkSystem s' (<[i := Live p']> (pool σ) ++ (Live <$> spawned))
      | Fault => mkSystem (world σ) (<[i := Crashed]> (pool σ))
      | Halted => σ
      end
  | _ => σ
  end.

Definition exec (sched : list nat) (σ : System) : System :=
  foldl (λ σ i, step i σ) σ sched.

(** A program none of whose actions changes a response writer, now or
    later, in itself or in a goroutine it starts. *)
Fixpoint quiet (p : prog) : Prop :=
  match p with
  | Return => True
  | Atomic a k =>
      (∀ s x s', a s = Some (x, s') → writers s' = writers s) ∧ (∀ x, quiet (k x))
  | Go child k => quiet child ∧ quiet k
  end.

End Cache.

(** ** A burst of requests on one path

    A handler answering two bytes of text, a request for "/a", and a cache
    with TTL 250 and TTD 750 facing [n] requests at once, one goroutine
    each (goroutine [w] answers on writer [w]). *)
Definition hello : http_Handler :=
  λ _ _, [CallHeaderSet "Content-Type" "text/plain"; CallWrite [x68; x69]].

Definition req : http_Request := {| URL_Path := "/a"; URL_RawQuery := "" |}.

Definition burst (n : nat) : Cache.System :=
  {| Cache.world :=
       {| Cache.cache := Cache.NewCache Keymaker 250 750; Cache.writers := ∅;
          Cache.invocations := 0; Cache.entropy := [11; 22; 33] |};
     Cache.pool := (λ w, Cache.Live (Cache.Chain hello w req)) <$> seq 0 n |}.

(** Goroutine 0 runs alone through the miss path: key, status, rand,
    handler, swap, go, serve. *)
Definition fill : list nat := [0; 0; 0; 0; 0; 0; 0]%nat.

(** The first half of decay goroutine [d]: sleep, status, stale. *)
Definition ttl_expires (d : nat) : list nat := [d; d; d].

(** Two requests on a stale entry, goroutines 1 and 2: both take the key and
    the status before either marks the entry; then each marks it, starts its
    regeneration (goroutines 4 and 5) and serves; then each regeneration
    draws its id and runs the handler. *)
Definition stampede : list nat :=
  [1; 1; 2; 2; 1; 1; 2; 2; 1; 2; 4; 4; 5; 5]%nat.

(** Goroutine 2 has seen the stale entry; goroutine 1 marks it and its
    regeneration (goroutine 4) runs up to the swap; then goroutine 2 marks
    what is there now. *)
Definition late_mark : list nat :=
  [1; 1; 2; 2; 1; 1; 4; 4; 4; 2]%nat.

(** Decay goroutine 2 sleeps its ttd and finds the entry stale, not
    regenerating and its own; request goroutine 1 takes key and status,
    marks the entry and starts its regeneration; the decay goroutine kills;
    the request serves. *)
Definition killed_before_serve : list nat :=
  [2; 2; 1; 1; 1; 1; 2; 1]%nat.

(** The lifecycle invariant of the store: a regenerating entry is stale. *)
Definition regen_implies_stale (c : Cache.t) : Prop :=
  ∀ key e, Cache.caches c !! key = Some (Some e) →
    ResponseCacher.regen e = true → ResponseCacher.fresh e = false.

(** A cache holding one entry, under "/a". *)
Definition one_entry : Cache.t :=
  Cache.swap (Cache.NewCache Keymaker 250 750) "/a" (ResponseCacher.NewResponseCacher 1).

(** The bytes a handler's [Write] calls carry, in call order. *)
Definition written (ops : list WriterCall) : list byte :=
  concat (omap (λ op, match op with CallWrite buf => Some buf | _ => None end) ops).

(** Goroutines run one after the other, each to its end; the goroutines
    they start are collected, not run. *)
Fixpoint run_each (ps : list Cache.prog) (s : Cache.World)
    : option (Cache.World * list Cache.prog) :=
  match ps with
  | [] => Some (s, [])
  | p :: ps =>
      match Cache.run p s with
      | Some (s', l) =>
          match run_each ps s' with
          | Some (s'', l') => Some (s'', l ++ l')
          | None => None
          end
      | None => None
      end
  end.

(** Two requests, goroutines 0 and 1, on a key with no entry: both take the
    key and the status; then each runs rand, the handler, the swap, the go
    and the serve. *)
Definition cold_start : list nat :=
  [0; 0; 1; 1; 0; 0; 0; 0; 0; 1; 1; 1; 1; 1]%nat.

(** Two regenerations of one key, goroutines 0 and 1: the first draws its id
    and runs the handler; the second does the same, swaps and starts its
    decay; then the first swaps and starts its decay. *)
Definition overtaken : list nat := [0; 0; 1; 1; 1; 1; 0; 0]%nat.

(** A decay goroutine (0) and a regeneration (1): the timer sleeps and takes
    the status; the regeneration draws its id, runs the handler and swaps;
    then the timer makes its call. *)
Definition overtaken_timer : list nat := [0; 0; 1; 1; 1; 0]%nat.

(** What one turn of the [range c.Head] loop of [Serve] sets under the
    canonical name [ck]: the first value of the pair, when the pair holds a
    value and its name has that canonical form. *)
Definition setsUnder (ck : string) (kv : string * list string) : option string :=
  match kv.2 with
  | v :: _ => if decide (CanonicalMIMEHeaderKey kv.1 = ck) then Some v else None
  | [] => None
  end.

(** The value the whole loop leaves under [ck]: that of the last such pair
    in iteration order; none when there is no such pair. *)
Definition lastSet (order : list (string * list string)) (ck : string) : option string :=
  last (omap (setsUnder ck) order).

(** A recorder holding two names of one canonical form, and a name without
    a value. *)
Definition shadowed : ResponseCacher.t :=
  ResponseCacher.set_Head
    {[ "X-Id"%string := ["1"%string];
       "x-id"%string := ["2"%string; "3"%string];
       "X-Empty"%string := [] ]}
    (ResponseCacher.NewResponseCacher 1).

(** One request for "/a" on an empty cache with the given TTL and TTD. *)
Definition lone_request (ttl ttd : Z) : Cache.System :=
  {| Cache.world :=
       {| Cache.cache := Cache.NewCache Keymaker ttl ttd; Cache.writers := ∅;
          Cache.invocations := 0; Cache.entropy := [11] |};
     Cache.pool := [Cache.Live (Cache.Chain hello 0 req)] |}.

(** Request goroutine 0 runs the miss path up to the [go] statement (key,
    status, rand, handler, swap, go); the decay goroutine it started (1) runs
    to its end (sleep, status, stale, sleep, status, kill); then the request
    serves. *)
Definition killed_after_swap : list nat :=
  [0; 0; 0; 0; 0; 0; 1; 1; 1; 1; 1; 1; 0]%nat.

(** Decay goroutine 2 sleeps its ttd and takes the status; request goroutine
    1 takes key and status, marks the entry and starts its regeneration
    (goroutine 3); the regeneration draws its id, runs the handler and
    swaps; the decay goroutine makes its call. *)
Definition foreign_kill : list nat :=
  [2; 2; 1; 1; 1; 1; 3; 3; 3; 2]%nat.

(** The cache has the key maker [km] and holds under [key] an entry that a
    request will only serve: fresh, or marked regenerating. *)
Definition live_entry (km : Keyer) (key : string) (c : Cache.t) : Prop :=
  Cache.Keymaker c = km
  ∧ ∃ e, Cache.caches c !! key = Some (Some e)
         ∧ ResponseCacher.fresh e || ResponseCacher.regen e = true.

(** A program each of whose steps, taken in any world whose cache satisfies
    [P], succeeds and leaves the cache, the invocation count and the entropy
    as they are, and which starts no goroutine. *)
Fixpoint bystander (P : Cache.t → Prop) (p : Cache.prog) : Prop :=
  match p with
  | Cache.Return => True
  | Cache.Atomic a k =>
      ∀ s, P (Cache.cache s) →
        ∃ x s', a s = Some (x, s')
                ∧ Cache.cache s' = Cache.cache s
                ∧ Cache.invocations s' = Cache.invocations s
                ∧ Cache.entropy s' = Cache.entropy s
                ∧ bystander P (k x)
  | Cache.Go _ _ => False
  end.

(** Where a [regenerate] goroutine started with [n] invocations on the
    counter can be: its remaining program, the invocation count, and the
    goroutines it has started. *)
Inductive regeneration_at (next : http_Handler) (key : string) (r : http_Request)
    (n : nat) : Cache.prog → nat → list Cache.goroutine → Prop :=
| at_rand (w : nat) :
    regeneration_at next key r n (Cache.regenerate next key w r Cache.Return) n []
| at_handler (id : Z) :
    regeneration_at next key r n
      (Cache.Atomic (Cache.ServeHTTP next (ResponseCacher.NewResponseCacher id) r)
         (λ cache, Cache.Atomic (Cache.c_swap key cache)
                     (λ _, Cache.Go (Cache.decay key id) Cache.Return)))
      n []
| at_swap (id : Z) (e : ResponseCacher.t) :
    ResponseCacher.fresh e = true →
    regeneration_at next key r n
      (Cache.Atomic (Cache.c_swap key e) (λ _, Cache.Go (Cache.decay key id) Cache.Return))
      (S n) []
| at_go (id : Z) :
    regeneration_at next key r n (Cache.Go (Cache.decay key id) Cache.Return) (S n) []
| at_end (id : Z) :
    regeneration_at next key r n Cache.Return (S n) [Cache.Live (Cache.decay key id)].

(** A system of one regeneration goroutine (goroutine 0), [m] goroutines
    that only serve, and what the regeneration has started. *)
Definition burst_invariant (next : http_Handler) (key : string) (r : http_Request)
    (km : Keyer) (n m : nat) (σ : Cache.System) : Prop :=
  live_entry km key (Cache.cache (Cache.world σ))
  ∧ ∃ g Rs D,
      Cache.pool σ = Cache.Live g :: Rs ++ D
      ∧ regeneration_at next key r n g (Cache.invocations (Cache.world σ)) D
      ∧ length Rs = m
      ∧ Forall (λ R, ∃ p, R = Cache.Live p ∧ bystander (live_entry km key) p) Rs.

(** * Properties *)

(** ** The recorder *)

Import ResponseCacher (NewResponseCacher).

Ltac recorder_unfold :=
  unfold ResponseCacher.call, ResponseCacher.Flush, ResponseCacher.Write,
    ResponseCacher.WriteHeader, ResponseCacher.Header in *.

Lemma calls_app (pre post : list WriterCall) (c : ResponseCacher.t) :
  ResponseCacher.calls (pre ++ post) c
  = ResponseCacher.calls post (ResponseCacher.calls pre c).
Proof. unfold ResponseCacher.calls. apply foldl_app. Qed.

Lemma calls_cons (op : WriterCall) (ops : list WriterCall) (c : ResponseCacher.t) :
  ResponseCacher.calls (op :: ops) c
  = ResponseCacher.calls ops (ResponseCacher.call op c).
Proof. reflexivity. Qed.

(** Once a header has been written, no call changes the status code. *)
Lemma call_after_header (op : WriterCall) (c : ResponseCacher.t) :
  ResponseCacher.wroteHeader c = true →
  ResponseCacher.wroteHeader (ResponseCacher.call op c) = true
  ∧ ResponseCacher.Code (ResponseCacher.call op c) = ResponseCacher.Code c.
Proof.
  intros Hw. destruct op; recorder_unfold; rewrite ?Hw; simpl; auto.
  destruct (ResponseCacher.Body c); simpl; auto.
Qed.

Lemma calls_after_header (ops : list WriterCall) (c : ResponseCacher.t) :
  ResponseCacher.wroteHeader c = true →
  ResponseCacher.wroteHeader (ResponseCacher.calls ops c) = true
  ∧ ResponseCacher.Code (ResponseCacher.calls ops c) = ResponseCacher.Code c.
Proof.
  revert c. induction ops as [|op ops IH]; intros c Hw; [done|].
  rewrite calls_cons. destruct (call_after_header op c Hw) as [Hw' Hc].
  destruct (IH _ Hw') as [-> ->]. auto.
Qed.

(** Header calls leave the status untouched. *)
Lemma calls_header_only (ops : list WriterCall) (c : ResponseCacher.t) :
  forallb isHeaderCall ops = true →
  ResponseCacher.wroteHeader (ResponseCacher.calls ops c) = ResponseCacher.wroteHeader c
  ∧ ResponseCacher.Code (ResponseCacher.calls ops c) = ResponseCacher.Code c.
Proof.
  revert c. induction ops as [|op ops IH]; intros c Hops; [done|].
  simpl in Hops. apply andb_prop in Hops as [Hop Hops].
  rewrite calls_cons. destruct (IH (ResponseCacher.call op c) Hops) as [-> ->].
  destruct op; try discriminate; done.
Qed.

Lemma calls_implicit (ops : list WriterCall) (c : ResponseCacher.t) :
  forallb (λ op, negb (isWriteHeader op)) ops = true →
  implicitStatus c → implicitStatus (ResponseCacher.calls ops c).
Proof.
  revert c. induction ops as [|op ops IH]; intros c Hops Hc; [done|].
  simpl in Hops. apply andb_prop in Hops as [Hop Hops].
  rewrite calls_cons. apply IH; [done|].
  destruct Hc as [Hw|[Hw Hc]].
  - destruct op; try discriminate; recorder_unfold; rewrite ?Hw; simpl;
      try (by left); try (by right).
    destruct (ResponseCacher.Body c); by right.
  - right. destruct (call_after_header op c Hw) as [-> ->]. done.
Qed.

Lemma Write_implicit (buf : list byte) (c : ResponseCacher.t) :
  implicitStatus c →
  ResponseCacher.Code (ResponseCacher.call (CallWrite buf) c) = 200
  ∧ ResponseCacher.wroteHeader (ResponseCacher.call (CallWrite buf) c) = true.
Proof.
  intros [Hw|[Hw Hc]]; recorder_unfold; rewrite Hw; simpl;
    destruct (ResponseCacher.Body c); simpl; auto.
Qed.

Lemma calls_first_status (ops : list WriterCall) (c : ResponseCacher.t) :
  ResponseCacher.wroteHeader c = false →
  ResponseCacher.Code (ResponseCacher.calls ops c)
  = default (ResponseCacher.Code c) (head (omap headerWritten ops)).
Proof.
  revert c. induction ops as [|op ops IH]; intros c Hw; [done|].
  rewrite calls_cons. simpl. destruct (headerWritten op) as [v|] eqn:Hop; simpl.
  - assert (ResponseCacher.wroteHeader (ResponseCacher.call op c) = true
            ∧ ResponseCacher.Code (ResponseCacher.call op c) = v) as [Hw' Hc'].
    { destruct op; simplify_eq/=; recorder_unfold; rewrite Hw; simpl;
        try destruct (ResponseCacher.Body c); done. }
    destruct (calls_after_header ops _ Hw') as [_ ->]. done.
  - rewrite IH; destruct op; simplify_eq/=; done.
Qed.

(** C8. Whatever a handler calls on a recorder, the status code captured is
    the argument of the first [WriteHeader] call made on it (0 when there is
    none), counting the [WriteHeader(200)] that [Write] and [Flush] issue
    when no header was written before them.  So an explicit [WriteHeader]
    that only header calls precede fixes the code, whatever is called
    afterwards (later [WriteHeader] calls are ignored); and when body bytes
    are written before any explicit [WriteHeader] call, the status code is
    200 from that first body write on. *)
Theorem recorder_first_status_wins (id : Z) (pre post : list WriterCall) :
  ResponseCacher.Code (ResponseCacher.calls pre (NewResponseCacher id))
  = default 0 (head (omap headerWritten pre))
  ∧ (∀ code, forallb isHeaderCall pre = true →
     ResponseCacher.Code
       (ResponseCacher.calls (pre ++ CallWriteHeader code :: post) (NewResponseCacher id))
     = code)
  ∧ (∀ buf, forallb (λ op, negb (isWriteHeader op)) pre = true →
     ResponseCacher.Code
       (ResponseCacher.calls (pre ++ [CallWrite buf]) (NewResponseCacher id)) = 200
     ∧ ResponseCacher.Code
       (ResponseCacher.calls (pre ++ CallWrite buf :: post) (NewResponseCacher id)) = 200).
Proof.
  split_and!.
  - by apply calls_first_status.
  - intros code Hpre. rewrite calls_app, calls_cons.
    destruct (calls_header_only pre (NewResponseCacher id) Hpre) as [Hw Hc].
    set (c := ResponseCacher.calls pre (NewResponseCacher id)) in *.
    assert (ResponseCacher.wroteHeader (ResponseCacher.call (CallWriteHeader code) c) = true
            ∧ ResponseCacher.Code (ResponseCacher.call (CallWriteHeader code) c) = code)
      as [Hw' Hc'].
    { recorder_unfold. rewrite Hw. done. }
    destruct (calls_after_header post _ Hw') as [_ ->]. done.
  - intros buf Hpre.
    assert (implicitStatus (ResponseCacher.calls pre (NewResponseCacher id))) as Hi.
    { apply calls_implicit; [done|]. by left. }
    destruct (Write_implicit buf _ Hi) as [Hc Hw].
    rewrite !calls_app, !calls_cons. split; [exact Hc|].
    destruct (calls_after_header post _ Hw) as [_ ->]. exact Hc.
Qed.

Lemma recorder_first_status_wins_witness :
  ResponseCacher.Code
    (ResponseCacher.calls
       ([CallHeaderSet "content-type" "text/plain"]
        ++ CallWriteHeader 404 :: [CallWrite [x68]; CallWriteHeader 500])
       (NewResponseCacher 7)) = 404
  ∧ ResponseCacher.Code
    (ResponseCacher.calls
       ([CallHeaderSet "content-type" "text/plain"; CallFlush]
        ++ CallWrite [x68] :: [CallWriteHeader 500])
       (NewResponseCacher 7)) = 200.
Proof.
  split.
  - apply (proj1 (proj2 (recorder_first_status_wins 7
      [CallHeaderSet "content-type" "text/plain"] [CallWrite [x68]; CallWriteHeader 500]))).
    reflexivity.
  - apply (proj2 (proj2 (recorder_first_status_wins 7
      [CallHeaderSet "content-type" "text/plain"; CallFlush] [CallWriteHeader 500]))).
    reflexivity.
Defined.

(** No call takes the done flag back, and none makes the body nil. *)
Lemma calls_Done (ops : list WriterCall) (c : ResponseCacher.t) :
  ResponseCacher.Done c = true → ResponseCacher.Done (ResponseCacher.calls ops c) = true.
Proof.
  revert c. induction ops as [|op ops IH]; intros c Hd; [done|].
  rewrite calls_cons. apply IH.
  destruct op; recorder_unfold; simpl; try done;
    destruct (ResponseCacher.wroteHeader c); simpl; try done;
    destruct (ResponseCacher.Body c); done.
Qed.

Lemma calls_Body (ops : list WriterCall) (c : ResponseCacher.t) :
  is_Some (ResponseCacher.Body c) → is_Some (ResponseCacher.Body (ResponseCacher.calls ops c)).
Proof.
  revert c. induction ops as [|op ops IH]; intros c Hb; [done|].
  rewrite calls_cons. apply IH. destruct Hb as [b Hb].
  destruct op; recorder_unfold; simpl; rewrite ?Hb; eauto;
    destruct (ResponseCacher.wroteHeader c); simpl; rewrite ?Hb; eauto.
Qed.

(** C9. [Flush] sets the done flag and leaves headers and body as they
    were, and the status code too once one has been written (on a recorder
    with no status yet it records the implicit 200).  It blocks nothing:
    after it, and after any further calls, the flag stays set and a [Write]
    still appends its bytes to the body and returns [len(buf), nil]. *)
Theorem Flush_done_not_blocking (c : ResponseCacher.t) (ops : list WriterCall)
    (buf : list byte) :
  let f := ResponseCacher.Flush c in
  let c' := ResponseCacher.calls ops f in
  ResponseCacher.Done f = true
  ∧ ResponseCacher.Head f = ResponseCacher.Head c
  ∧ ResponseCacher.Body f = ResponseCacher.Body c
  ∧ (ResponseCacher.wroteHeader c = true → ResponseCacher.Code f = ResponseCacher.Code c)
  ∧ (ResponseCacher.wroteHeader c = false → ResponseCacher.Code f = 200)
  ∧ ResponseCacher.Done c' = true
  ∧ ResponseCacher.Done (ResponseCacher.Write buf c').1 = true
  ∧ (∀ b, ResponseCacher.Body c' = Some b →
       ResponseCacher.Body (ResponseCacher.Write buf c').1 = Some (b ++ buf))
  ∧ (ResponseCacher.Write buf c').2 = (Z.of_nat (length buf), None)
  ∧ (is_Some (ResponseCacher.Body c) → is_Some (ResponseCacher.Body c')).
Proof.
  intros f c'.
  assert (ResponseCacher.Done f = true) as Hf.
  { unfold f. recorder_unfold. by destruct (ResponseCacher.wroteHeader c). }
  assert (ResponseCacher.Done c' = true) as Hc' by (by apply calls_Done).
  split_and!; try done.
  - unfold f. recorder_unfold. by destruct (ResponseCacher.wroteHeader c).
  - unfold f. recorder_unfold. by destruct (ResponseCacher.wroteHeader c).
  - intros Hw. unfold f. recorder_unfold. by rewrite Hw.
  - intros Hw. unfold f. recorder_unfold. by rewrite Hw.
  - recorder_unfold. destruct (ResponseCacher.wroteHeader c'); simpl;
      destruct (ResponseCacher.Body c'); done.
  - intros b Hb. recorder_unfold.
    destruct (ResponseCacher.wroteHeader c'); simpl; rewrite Hb; done.
  - intros Hb. apply calls_Body. unfold f. recorder_unfold.
    by destruct (ResponseCacher.wroteHeader c).
Qed.

Lemma Flush_done_not_blocking_witness :
  ResponseCacher.Code (ResponseCacher.Flush cookies) = ResponseCacher.Code cookies
  ∧ ResponseCacher.Code (ResponseCacher.Flush (NewResponseCacher 7)) = 200
  ∧ ResponseCacher.Body
      (ResponseCacher.Write [x21]
         (ResponseCacher.calls [CallWrite [x6f]] (ResponseCacher.Flush cookies))).1
    = Some ([x68; x69; x6f] ++ [x21])
  ∧ is_Some (ResponseCacher.Body
      (ResponseCacher.calls [CallWrite [x6f]] (ResponseCacher.Flush cookies))).
Proof.
  destruct (Flush_done_not_blocking cookies [CallWrite [x6f]] [x21])
    as (_ & _ & _ & Hkeep & _ & _ & _ & Happend & _ & Hbody).
  destruct (Flush_done_not_blocking (NewResponseCacher 7) [] [])
    as (_ & _ & _ & _ & Himplicit & _).
  split_and!.
  - apply Hkeep. reflexivity.
  - apply Himplicit. reflexivity.
  - apply Happend. reflexivity.
  - apply Hbody. exists [x68; x69]. reflexivity.
Defined.

(** ** Serving a recorded entry *)

Lemma replayHead_other (order : list (string * list string)) (h : http_Header)
    (ck : string) :
  (∀ k v vs, (k, v :: vs) ∈ order → CanonicalMIMEHeaderKey k ≠ ck) →
  ResponseCacher.replayHead order h !! ck = h !! ck.
Proof.
  revert h. induction order as [|[k vs] order IH]; intros h Hne; [done|].
  simpl. rewrite IH.
  - destruct vs as [|v vs]; simpl; [done|].
    unfold Header_Set. apply lookup_insert_ne. eapply Hne, list_elem_of_here.
  - intros k' v' vs' Hin. eapply Hne, list_elem_of_further, Hin.
Qed.

Lemma replayHead_first (order : list (string * list string)) (h : http_Header)
    (k v : string) (vs : list string) :
  NoDup order.*1 →
  (k, v :: vs) ∈ order →
  (∀ k' v' vs', (k', v' :: vs') ∈ order →
     CanonicalMIMEHeaderKey k' = CanonicalMIMEHeaderKey k → k' = k) →
  ResponseCacher.replayHead order h !! CanonicalMIMEHeaderKey k = Some [v].
Proof.
  revert h. induction order as [|[k1 vs1] order IH]; intros h Hnd Hin Hinj.
  { by apply elem_of_nil in Hin. }
  simpl in Hnd. apply NoDup_cons in Hnd as [Hk1 Hnd].
  apply elem_of_cons in Hin as [Heq|Hin].
  - injection Heq as <- <-. simpl. rewrite replayHead_other.
    + unfold Header_Set. apply lookup_insert_eq.
    + intros k' v' vs' Hin' Hc.
      assert (k' = k) as -> by (eapply Hinj; [by apply list_elem_of_further|done]).
      apply Hk1. apply list_elem_of_fmap. by exists (k, v' :: vs').
  - simpl. apply IH; [done..|].
    intros k' v' vs' Hin'. apply (Hinj k' v' vs'). by apply list_elem_of_further.
Qed.

(** What [Serve] writes as the body: the captured bytes and one more, the
    newline [Fprintln] adds. *)
Lemma Serve_body (order : list (string * list string)) (c : ResponseCacher.t)
    (w : http_ResponseWriter) (mark : bool) :
  rw_body (ResponseCacher.Serve_in order c w mark)
  = rw_body w ++ Buffer_String (ResponseCacher.Body c) ++ [x0a].
Proof. reflexivity. Qed.

(** What the loop of [Serve] leaves under each canonical name. *)
Lemma replayHead_lookup (order : list (string * list string)) (h : http_Header)
    (ck : string) :
  ResponseCacher.replayHead order h !! ck
  = match lastSet order ck with
    | Some v => Some [v]
    | None => h !! ck
    end.
Proof.
  induction order as [|[k vs] order IH] using rev_ind; [done|].
  unfold lastSet in *. rewrite omap_app, last_app.
  unfold ResponseCacher.replayHead in *. rewrite foldl_app. simpl.
  unfold setsUnder at 1. simpl.
  destruct vs as [|v vs]; simpl; [exact IH|].
  unfold Header_Set. destruct (decide (CanonicalMIMEHeaderKey k = ck)) as [<-|Hne]; simpl.
  - by rewrite lookup_insert_eq.
  - rewrite lookup_insert_ne by done. exact IH.
Qed.

Lemma omap_setsUnder_nil (order : list (string * list string)) (ck : string) :
  (∀ k v vs, (k, v :: vs) ∈ order → CanonicalMIMEHeaderKey k ≠ ck) →
  omap (setsUnder ck) order = [].
Proof.
  intros Hne. induction order as [|[k vs] order IH]; [done|].
  cbn [omap list_omap]. unfold setsUnder at 1. simpl.
  destruct vs as [|v vs]; simpl.
  - apply IH. intros k' v' vs' Hin. eapply Hne, list_elem_of_further, Hin.
  - destruct (decide _) as [Heq|_].
    + exfalso. eapply Hne; [apply list_elem_of_here|exact Heq].
    + apply IH. intros k' v' vs' Hin. eapply Hne, list_elem_of_further, Hin.
Qed.

Lemma lastSet_none (order : list (string * list string)) (ck : string) :
  (∀ k v vs, (k, v :: vs) ∈ order → CanonicalMIMEHeaderKey k ≠ ck) →
  lastSet order ck = None.
Proof. intros Hne. unfold lastSet. by rewrite omap_setsUnder_nil. Qed.

Lemma lastSet_last (pre post : list (string * list string)) (k v : string)
    (vs : list string) :
  (∀ k' v' vs', (k', v' :: vs') ∈ post →
     CanonicalMIMEHeaderKey k' ≠ CanonicalMIMEHeaderKey k) →
  lastSet (pre ++ (k, v :: vs) :: post) (CanonicalMIMEHeaderKey k) = Some v.
Proof.
  intros Hpost. unfold lastSet. rewrite omap_app. cbn [omap list_omap].
  rewrite (omap_setsUnder_nil post) by done.
  unfold setsUnder. simpl. rewrite decide_True by done. apply last_snoc.
Qed.

(** C6, as the code has it.  In whatever order the header map is iterated,
    [Serve] passes the captured status code to the target's [WriteHeader].
    Under every canonical name the target ends up with: the marker value
    "1" alone, when [mark] is set and the name is the marker's; otherwise
    the first value alone of the last captured pair, in iteration order,
    that holds a value and whose name has this canonical form; and what the
    target held before, when there is no such pair.  So a captured header
    with a value is set to its first value only (when no other captured name
    shares its canonical form, whatever the order); of several captured names
    with one canonical form the one iterated last wins; a header captured
    without a value is skipped, the target keeping what it had; and with
    [mark] the marker header holds the single value "1", however many
    headers and values were captured. *)
Theorem Serve_replays_first_values (c : ResponseCacher.t) (w : http_ResponseWriter)
    (mark : bool) (order : list (string * list string)) :
  order ≡ₚ map_to_list (ResponseCacher.Head c) →
  let w' := ResponseCacher.Serve_in order c w mark in
  rw_codes w' = rw_codes w ++ [ResponseCacher.Code c]
  ∧ (∀ k v vs,
       ResponseCacher.Head c !! k = Some (v :: vs) →
       (∀ k' v' vs', ResponseCacher.Head c !! k' = Some (v' :: vs') →
          CanonicalMIMEHeaderKey k' = CanonicalMIMEHeaderKey k → k' = k) →
       mark = false
       ∨ CanonicalMIMEHeaderKey k ≠ CanonicalMIMEHeaderKey "X-From-BurstCache" →
       Header_Values k (rw_Header w') = [v])
  ∧ (mark = true → Header_Values "X-From-BurstCache" (rw_Header w') = ["1"%string])
  ∧ (∀ ck,
       rw_Header w' !! ck
       = if mark && bool_decide (ck = CanonicalMIMEHeaderKey "X-From-BurstCache")
         then Some ["1"%string]
         else match lastSet order ck with
              | Some v => Some [v]
              | None => rw_Header w !! ck
              end)
  ∧ (∀ pre post k v vs,
       order = pre ++ (k, v :: vs) :: post →
       (∀ k' v' vs', (k', v' :: vs') ∈ post →
          CanonicalMIMEHeaderKey k' ≠ CanonicalMIMEHeaderKey k) →
       mark = false
       ∨ CanonicalMIMEHeaderKey k ≠ CanonicalMIMEHeaderKey "X-From-BurstCache" →
       Header_Values k (rw_Header w') = [v])
  ∧ (∀ k,
       ResponseCacher.Head c !! k = Some [] →
       (∀ k' v' vs', ResponseCacher.Head c !! k' = Some (v' :: vs') →
          CanonicalMIMEHeaderKey k' ≠ CanonicalMIMEHeaderKey k) →
       mark = false
       ∨ CanonicalMIMEHeaderKey k ≠ CanonicalMIMEHeaderKey "X-From-BurstCache" →
       rw_Header w' !! CanonicalMIMEHeaderKey k
       = rw_Header w !! CanonicalMIMEHeaderKey k).
Proof.
  intros Hperm w'.
  assert (∀ ck,
       rw_Header w' !! ck
       = if mark && bool_decide (ck = CanonicalMIMEHeaderKey "X-From-BurstCache")
         then Some ["1"%string]
         else match lastSet order ck with
              | Some v => Some [v]
              | None => rw_Header w !! ck
              end) as Hall.
  { intros ck. unfold w', ResponseCacher.Serve_in. simpl. destruct mark; simpl.
    - unfold Header_Set. case_bool_decide as Hck.
      + subst ck. by rewrite lookup_insert_eq.
      + rewrite lookup_insert_ne by done. apply replayHead_lookup.
    - apply replayHead_lookup. }
  assert (∀ ck, mark = false ∨ ck ≠ CanonicalMIMEHeaderKey "X-From-BurstCache" →
            mark && bool_decide (ck = CanonicalMIMEHeaderKey "X-From-BurstCache") = false)
    as Hoff.
  { intros ck [->|Hne]; [done|]. rewrite bool_decide_eq_false_2 by done.
    apply andb_false_r. }
  split_and!.
  - reflexivity.
  - intros k v vs Hk Hinj Hmark.
    assert (ResponseCacher.replayHead order (rw_Header w) !! CanonicalMIMEHeaderKey k
            = Some [v]) as Hr.
    { apply replayHead_first with vs.
      - rewrite Hperm. apply NoDup_fst_map_to_list.
      - rewrite Hperm. by apply elem_of_map_to_list.
      - intros k' v' vs' Hin. apply (Hinj k' v' vs').
        apply elem_of_map_to_list. by rewrite <- Hperm. }
    unfold Header_Values, w', ResponseCacher.Serve_in. simpl.
    destruct mark; [|by rewrite Hr].
    destruct Hmark as [?|Hne]; [done|].
    unfold Header_Set. rewrite lookup_insert_ne by done. by rewrite Hr.
  - intros ->. unfold Header_Values, w', ResponseCacher.Serve_in, Header_Set. simpl.
    by rewrite lookup_insert_eq.
  - exact Hall.
  - intros pre post k v vs -> Hpost Hmark. unfold Header_Values.
    rewrite Hall, (Hoff _ Hmark), lastSet_last by done. done.
  - intros k Hk Hne Hmark. rewrite Hall, (Hoff _ Hmark), lastSet_none; [done|].
    intros k' v' vs' Hin. apply (Hne k' v' vs').
    apply elem_of_map_to_list. by rewrite <- Hperm.
Qed.

Lemma Serve_replays_first_values_witness :
  rw_codes (ResponseCacher.Serve plain newWriter true) = [0]
  ∧ Header_Values "Content-Type" (rw_Header (ResponseCacher.Serve plain newWriter true))
    = ["text/plain"%string]
  ∧ Header_Values "X-From-BurstCache" (rw_Header (ResponseCacher.Serve plain newWriter true))
    = ["1"%string]
  ∧ Header_Values "X-Id" (rw_Header (ResponseCacher.Serve shadowed newWriter false))
    = ["1"%string]
  ∧ Header_Values "x-id"
      (rw_Header (ResponseCacher.Serve_in (reverse (map_to_list (ResponseCacher.Head shadowed)))
                    shadowed newWriter false))
    = ["2"%string]
  ∧ rw_Header (ResponseCacher.Serve shadowed
                 (rw_setHeader {[ "X-Empty"%string := ["kept"%string] ]} newWriter) false)
      !! CanonicalMIMEHeaderKey "X-Empty"
    = Some ["kept"%string].
Proof.
  destruct (Serve_replays_first_values plain newWriter true
              (map_to_list (ResponseCacher.Head plain)) (reflexivity _))
    as (Hcode & Hhead & Hmark & _).
  destruct (Serve_replays_first_values shadowed newWriter false
              (map_to_list (ResponseCacher.Head shadowed)) (reflexivity _))
    as (_ & _ & _ & _ & Hlast & _).
  destruct (Serve_replays_first_values shadowed newWriter false
              (reverse (map_to_list (ResponseCacher.Head shadowed)))
              (reverse_Permutation _))
    as (_ & _ & _ & _ & Hlast' & _).
  destruct (Serve_replays_first_values shadowed
              (rw_setHeader {[ "X-Empty"%string := ["kept"%string] ]} newWriter) false
              (map_to_list (ResponseCacher.Head shadowed)) (reflexivity _))
    as (_ & _ & _ & _ & _ & Hskip).
  split_and!.
  - exact Hcode.
  - apply (Hhead "Content-Type"%string "text/plain"%string []).
    + reflexivity.
    + intros k' v' vs' Hk' _. simpl in Hk'.
      apply lookup_singleton_Some in Hk' as [Hk' _]. by symmetry.
    + right. vm_compute. discriminate.
  - apply Hmark. reflexivity.
  - apply (Hlast [("x-id"%string, ["2"%string; "3"%string]); ("X-Empty"%string, [])] []
             "X-Id"%string "1"%string []).
    + vm_compute. reflexivity.
    + intros k' v' vs' Hin. exfalso. exact (not_elem_of_nil _ Hin).
    + by left.
  - apply (Hlast' [("X-Id"%string, ["1"%string]); ("X-Empty"%string, [])] []
             "x-id"%string "2"%string ["3"%string]).
    + vm_compute. reflexivity.
    + intros k' v' vs' Hin. exfalso. exact (not_elem_of_nil _ Hin).
    + by left.
  - unfold ResponseCacher.Serve. rewrite (Hskip "X-Empty"%string).
    + vm_compute. reflexivity.
    + reflexivity.
    + intros k' v' vs' Hk'. unfold shadowed, ResponseCacher.set_Head in Hk'.
      cbn [ResponseCacher.Head] in Hk'.
      apply lookup_insert_Some in Hk' as [[<- _]|[_ Hk']]; [vm_compute; discriminate|].
      apply lookup_insert_Some in Hk' as [[<- _]|[_ Hk']]; [vm_compute; discriminate|].
      apply lookup_singleton_Some in Hk' as [_ Hk']. discriminate.
    + by left.
Defined.

(** C6 as stated fails: of a header captured with two values only the first
    reaches the target, and the body written is not the captured body. *)
Lemma Serve_not_exact :
  Header_Values "Set-Cookie" (rw_Header (ResponseCacher.Serve cookies newWriter false))
  ≠ Header_Values "Set-Cookie" (ResponseCacher.Head cookies)
  ∧ Some (rw_body (ResponseCacher.Serve cookies newWriter false))
    ≠ ResponseCacher.Body cookies.
Proof. vm_compute. split; discriminate. Qed.

(** ** The store *)

Lemma status_exists (c : Cache.t) (key : string) (i : Z) (f g : bool) :
  Cache.status c key = (true, i, f, g) ↔
  ∃ e, Cache.caches c !! key = Some (Some e) ∧ ResponseCacher.id e = i
       ∧ ResponseCacher.fresh e = f ∧ ResponseCacher.regen e = g.
Proof.
  unfold Cache.status. split.
  - destruct (Cache.caches c !! key) as [[e|]|]; intros H; simplify_eq. eauto.
  - intros (e & -> & <- & <- & <-). done.
Qed.

Lemma status_missing (c : Cache.t) (key : string) (i : Z) (f g : bool) :
  Cache.status c key = (false, i, f, g) ↔
  (Cache.caches c !! key = None ∨ Cache.caches c !! key = Some None)
  ∧ i = 0 ∧ f = false ∧ g = false.
Proof.
  unfold Cache.status. split.
  - destruct (Cache.caches c !! key) as [[e|]|]; intros H; simplify_eq; auto.
  - intros ([-> | ->] & -> & -> & ->); done.
Qed.

(** C5, as the code has it.  [kill] does not take the key out of the map:
    it stores nil under it, and leaves every other key alone.  From then on
    the key answers every store method as a key [c0] never held: [status]
    reports no entry, [serve], [stale] and [regen] fault on the nil pointer,
    and [swap] installs the new entry all the same. *)
Theorem kill_behaves_as_never_cached (c c0 : Cache.t) (key : string)
    (w : http_ResponseWriter) (mark : bool) (e : ResponseCacher.t) :
  Cache.caches c0 !! key = None →
  let k := Cache.kill c key in
  Cache.caches k !! key = Some None
  ∧ (∀ key', key' ≠ key → Cache.caches k !! key' = Cache.caches c !! key')
  ∧ Cache.status k key = (false, 0, false, false)
  ∧ Cache.status c0 key = (false, 0, false, false)
  ∧ Cache.serve k key w mark = None ∧ Cache.serve c0 key w mark = None
  ∧ Cache.stale k key = None ∧ Cache.stale c0 key = None
  ∧ Cache.regen k key = None ∧ Cache.regen c0 key = None
  ∧ Cache.caches (Cache.swap k key e) !! key = Some (Some e)
  ∧ Cache.caches (Cache.swap c0 key e) !! key = Some (Some e)
  ∧ Cache.swap k key e = Cache.swap c key e.
Proof.
  intros H0 k.
  assert (Cache.caches k !! key = Some None) as Hk by apply lookup_insert_eq.
  unfold Cache.status, Cache.serve, Cache.stale, Cache.regen. rewrite Hk, H0.
  split_and!; try done.
  - intros key' Hne. unfold k, Cache.kill. simpl. by rewrite lookup_insert_ne.
  - apply lookup_insert_eq.
  - apply lookup_insert_eq.
  - unfold k, Cache.swap, Cache.kill, Cache.set_caches. simpl. by rewrite insert_insert_eq.
Qed.

Lemma kill_behaves_as_never_cached_witness :
  Cache.caches (Cache.kill one_entry "/a") !! "/a" = Some None
  ∧ Cache.status (Cache.kill one_entry "/a") "/a"
    = Cache.status (Cache.NewCache Keymaker 250 750) "/a"
  ∧ Cache.serve (Cache.kill one_entry "/a") "/a" newWriter true
    = Cache.serve (Cache.NewCache Keymaker 250 750) "/a" newWriter true.
Proof.
  destruct (kill_behaves_as_never_cached one_entry (Cache.NewCache Keymaker 250 750)
              "/a" newWriter true (NewResponseCacher 2) (lookup_empty _))
    as (Hnil & _ & Hs & Hs0 & Hv & Hv0 & _).
  split_and!.
  - exact Hnil.
  - by rewrite Hs, Hs0.
  - by rewrite Hv, Hv0.
Defined.

(** C5 as stated fails: after [kill] the association is still there, the
    map is not the one with the key deleted. *)
Lemma kill_keeps_the_key :
  Cache.caches (Cache.kill one_entry "/a") ≠ delete "/a" (Cache.caches one_entry)
  ∧ Cache.caches (Cache.kill one_entry "/a") !! "/a" ≠ None
  ∧ dom (Cache.caches (Cache.kill one_entry "/a")) = {[ "/a"%string ]}.
Proof.
  split_and!.
  - intros H. apply (f_equal (.!! "/a")) in H.
    rewrite lookup_delete_eq in H. unfold Cache.kill in H. simpl in H.
    by rewrite lookup_insert_eq in H.
  - unfold Cache.kill. simpl. by rewrite lookup_insert_eq.
  - unfold Cache.kill, one_entry, Cache.swap. simpl.
    rewrite !dom_insert_L, dom_empty_L. set_solver.
Qed.

(** ** The middleware, one goroutine alone *)

(** A handler cannot reach the lifecycle fields of the recorder. *)
Lemma calls_lifecycle (ops : list WriterCall) (c : ResponseCacher.t) :
  ResponseCacher.id (ResponseCacher.calls ops c) = ResponseCacher.id c
  ∧ ResponseCacher.fresh (ResponseCacher.calls ops c) = ResponseCacher.fresh c
  ∧ ResponseCacher.regen (ResponseCacher.calls ops c) = ResponseCacher.regen c.
Proof.
  revert c. induction ops as [|op ops IH]; intros c; [done|].
  rewrite calls_cons. destruct (IH (ResponseCacher.call op c)) as (-> & -> & ->).
  destruct op; recorder_unfold; simpl; try done;
    destruct (ResponseCacher.wroteHeader c); simpl; try done;
    destruct (ResponseCacher.Body c); done.
Qed.

Ltac run_simpl :=
  cbn [Cache.run Cache.c_Key Cache.c_status Cache.c_swap Cache.c_kill Cache.rand_Intn
       Cache.ServeHTTP Cache.time_Sleep Cache.call Cache.skip
       Cache.set_entropy Cache.set_invocations Cache.set_cache Cache.set_writers
       Cache.invocations Cache.entropy Cache.cache Cache.writers negb andb].

Lemma run_regenerate (next : http_Handler) (key : string) (w : nat) (r : http_Request)
    (k : Cache.prog) (s : Cache.World) :
  let id := hd 0 (Cache.entropy s) `mod` 1000000 in
  let e := ResponseCacher.calls (next (Cache.invocations s) r) (NewResponseCacher id) in
  Cache.run (Cache.regenerate next key w r k) s
  = match Cache.run k (Cache.mkWorld (Cache.swap (Cache.cache s) key e) (Cache.writers s)
                         (S (Cache.invocations s)) (tl (Cache.entropy s))) with
    | Some (s', l) => Some (s', Cache.decay key id :: l)
    | None => None
    end.
Proof. reflexivity. Qed.

(** The miss path of a request goroutine that runs without another
    goroutine in between.  A request whose key has no entry (never cached,
    or killed) runs the
    downstream handler once, on a recorder fresh from [NewResponseCacher];
    installs what the handler wrote with [swap]; schedules the decay for
    that recorder's id; and serves the installed entry on its own writer
    with [mark = false].  The entry is fresh and not regenerating. *)
Theorem first_request_fills (next : http_Handler) (w : nat) (r : http_Request)
    (s : Cache.World) (i : Z) (f g : bool) :
  let key := Key (Cache.Keymaker (Cache.cache s)) w r in
  Cache.status (Cache.cache s) key = (false, i, f, g) →
  let id := hd 0 (Cache.entropy s) `mod` 1000000 in
  let e := ResponseCacher.calls (next (Cache.invocations s) r) (NewResponseCacher id) in
  ResponseCacher.fresh e = true ∧ ResponseCacher.regen e = false
  ∧ ResponseCacher.id e = id
  ∧ Cache.run (Cache.Chain next w r) s
  = Some (Cache.mkWorld (Cache.swap (Cache.cache s) key e)
            (<[w := ResponseCacher.Serve e (Cache.writer s w) false]> (Cache.writers s))
            (S (Cache.invocations s)) (tl (Cache.entropy s)),
          [Cache.decay key id]).
Proof.
  intros key Hst id e.
  destruct (calls_lifecycle (next (Cache.invocations s) r) (NewResponseCacher id))
    as (Hid & Hf & Hg).
  split_and!; [done..|].
  unfold Cache.Chain. run_simpl. fold key. rewrite Hst. run_simpl.
  rewrite run_regenerate. fold id e. run_simpl.
  unfold Cache.c_serve, Cache.serve, Cache.swap. cbn.
  by rewrite lookup_insert_eq.
Qed.

Lemma first_request_fills_witness :
  Cache.run (Cache.Chain hello 0 req) (Cache.world (burst 1))
  = Some ({| Cache.cache :=
               Cache.swap (Cache.NewCache Keymaker 250 750) "/a"
                 (ResponseCacher.calls (hello 0%nat req) (NewResponseCacher 11));
             Cache.writers :=
               {[ 0%nat := ResponseCacher.Serve
                    (ResponseCacher.calls (hello 0%nat req) (NewResponseCacher 11))
                    newWriter false ]};
             Cache.invocations := 1;
             Cache.entropy := [22; 33] |},
          [Cache.decay "/a" 11]).
Proof.
  apply (first_request_fills hello 0 req (Cache.world (burst 1)) 0 false false).
  reflexivity.
Defined.

(** The other two branches of [Chain], for a goroutine running alone. *)
Lemma stale_request_refreshes (next : http_Handler) (w : nat) (r : http_Request)
    (s : Cache.World) (i : Z) :
  let key := Key (Cache.Keymaker (Cache.cache s)) w r in
  Cache.status (Cache.cache s) key = (true, i, false, false) →
  ∃ e, Cache.caches (Cache.cache s) !! key = Some (Some e)
  ∧ Cache.run (Cache.Chain next w r) s
    = Some (Cache.mkWorld
              (Cache.set_caches
                 (<[key := Some (ResponseCacher.set_regen true e)]>
                    (Cache.caches (Cache.cache s))) (Cache.cache s))
              (<[w := ResponseCacher.Serve (ResponseCacher.set_regen true e)
                        (Cache.writer s w) true]> (Cache.writers s))
              (Cache.invocations s) (Cache.entropy s),
            [Cache.regenerate next key w r Cache.Return]).
Proof.
  intros key Hst. pose proof Hst as Hst'.
  apply status_exists in Hst' as (e & He & _). exists e. split; [done|].
  unfold Cache.Chain. run_simpl. fold key. rewrite Hst. run_simpl.
  unfold Cache.c_regen, Cache.regen. rewrite He. run_simpl.
  unfold Cache.c_serve, Cache.serve. cbn. by rewrite lookup_insert_eq.
Qed.

Lemma hit_request_serves (next : http_Handler) (w : nat) (r : http_Request)
    (s : Cache.World) (i : Z) (f g : bool) :
  let key := Key (Cache.Keymaker (Cache.cache s)) w r in
  Cache.status (Cache.cache s) key = (true, i, f, g) →
  f || g = true →
  ∃ e, Cache.caches (Cache.cache s) !! key = Some (Some e)
  ∧ Cache.run (Cache.Chain next w r) s
    = Some (Cache.set_writers
              (<[w := ResponseCacher.Serve e (Cache.writer s w) true]> (Cache.writers s)) s,
            []).
Proof.
  intros key Hst Hfg. pose proof Hst as Hst'.
  apply status_exists in Hst' as (e & He & _). exists e. split; [done|].
  unfold Cache.Chain. run_simpl. fold key. rewrite Hst. run_simpl.
  assert (negb f && negb g = false) as -> by (by destruct f, g).
  run_simpl. unfold Cache.c_serve, Cache.serve. by rewrite He.
Qed.

Lemma exec_app (l1 l2 : list nat) (σ : Cache.System) :
  Cache.exec (l1 ++ l2) σ = Cache.exec l2 (Cache.exec l1 σ).
Proof. unfold Cache.exec. apply foldl_app. Qed.

Lemma exec_cons (i : nat) (l : list nat) (σ : Cache.System) :
  Cache.exec (i :: l) σ = Cache.exec l (Cache.step i σ).
Proof. reflexivity. Qed.

(** What [run] computes is an execution: the scheduler picking goroutine [i]
    again and again, until it is done. *)
Lemma run_is_an_execution (p : Cache.prog) :
  ∀ (s s' : Cache.World) (l : list Cache.prog) (i : nat) (pool : list Cache.goroutine),
    pool !! i = Some (Cache.Live p) →
    Cache.run p s = Some (s', l) →
    ∃ n, Cache.exec (replicate n i) (Cache.mkSystem s pool)
         = Cache.mkSystem s' (<[i := Cache.Live Cache.Return]> pool ++ (Cache.Live <$> l)).
Proof.
  induction p as [|A a k IH|child _ k IH]; intros s s' l i pool Hi Hrun; simpl in Hrun.
  - injection Hrun as <- <-. exists 0%nat. simpl.
    by rewrite list_insert_id, app_nil_r.
  - destruct (a s) as [[x s1]|] eqn:Ha; [|done].
    assert (i < length pool)%nat as Hlt by (by eapply lookup_lt_Some).
    destruct (IH x s1 s' l i (<[i := Cache.Live (k x)]> pool)) as [n Hn]; [|done|].
    { by apply list_lookup_insert_eq. }
    exists (S n). change (replicate (S n) i) with (i :: replicate n i).
    rewrite exec_cons. unfold Cache.step. simpl. rewrite Hi. simpl. rewrite Ha.
    simpl. rewrite app_nil_r, Hn. by rewrite list_insert_insert_eq.
  - destruct (Cache.run k s) as [[s1 l1]|] eqn:Hk; [|done]. injection Hrun as <- <-.
    assert (i < length pool)%nat as Hlt by (by eapply lookup_lt_Some).
    destruct (IH s s1 l1 i (<[i := Cache.Live k]> pool ++ [Cache.Live child])) as [n Hn];
      [|done|].
    { rewrite lookup_app_l by (by rewrite length_insert). by apply list_lookup_insert_eq. }
    exists (S n). change (replicate (S n) i) with (i :: replicate n i).
    rewrite exec_cons. unfold Cache.step. simpl. rewrite Hi. simpl. rewrite Hn.
    rewrite insert_app_l by (by rewrite length_insert).
    rewrite list_insert_insert_eq. by rewrite <- app_assoc.
Qed.

(** ** The decay goroutine *)

(** The guards of the decay goroutine, for the goroutine running alone and
    for its status checks.  Each half of the decay goroutine of instance
    [id] either leaves the
    world as it is or finds, at its status check, an entry for the key with
    this very [id]: a fresh one, and then it calls [stale]; or, in the
    second half, a stale one that is not regenerating, and then it calls
    [kill].  With no entry of this [id] under the key, the whole goroutine
    changes nothing.  Under any interleaving the decision is the one of the
    status check: after the sleep, in whatever world [s'] the check runs, the
    check itself changes nothing, and the goroutine goes on to the call only
    if the status of [s'] passes the guard; otherwise it skips it.  The call
    is a later step: what it finds under the key is not part of this. *)
Theorem decay_guards_generation (key : string) (id : Z) (s : Cache.World)
    (k : Cache.prog) :
  (Cache.run (Cache.decay_ttl key id k) s = Cache.run k s
   ∨ ∃ e c',
       Cache.caches (Cache.cache s) !! key = Some (Some e)
       ∧ ResponseCacher.fresh e = true ∧ ResponseCacher.id e = id
       ∧ Cache.stale (Cache.cache s) key = Some c'
       ∧ Cache.run (Cache.decay_ttl key id k) s = Cache.run k (Cache.set_cache c' s))
  ∧ (Cache.run (Cache.decay_ttd key id k) s = Cache.run k s
     ∨ ∃ e,
         Cache.caches (Cache.cache s) !! key = Some (Some e)
         ∧ ResponseCacher.fresh e = false ∧ ResponseCacher.regen e = false
         ∧ ResponseCacher.id e = id
         ∧ Cache.run (Cache.decay_ttd key id k) s
           = Cache.run k (Cache.set_cache (Cache.kill (Cache.cache s) key) s))
  ∧ ((∀ e, Cache.caches (Cache.cache s) !! key = Some (Some e) → ResponseCacher.id e ≠ id) →
     Cache.run (Cache.decay key id) s = Some (s, []))
  ∧ (∃ check, Cache.step1 (Cache.decay_ttl key id k) s = Cache.Stepped check s []
     ∧ ∀ s', Cache.step1 check s'
         = Cache.Stepped
             (let '(exists_, stale_id, fresh, _) := Cache.status (Cache.cache s') key in
              if exists_ && fresh && (stale_id =? id)
              then Cache.Atomic (Cache.c_stale key) (λ _, k) else k) s' [])
  ∧ (∃ check, Cache.step1 (Cache.decay_ttd key id k) s = Cache.Stepped check s []
     ∧ ∀ s', Cache.step1 check s'
         = Cache.Stepped
             (let '(exists_, stale_id, fresh, regen) := Cache.status (Cache.cache s') key in
              if exists_ && negb fresh && negb regen && (stale_id =? id)
              then Cache.Atomic (Cache.c_kill key) (λ _, k) else k) s' []).
Proof.
  split_and!.
  - unfold Cache.decay_ttl. run_simpl.
    destruct (Cache.status (Cache.cache s) key) as [[[ex sid] f] g] eqn:Hst.
    destruct ex; [|by left]. destruct f; [|by left].
    destruct (Z.eqb_spec sid id) as [->|]; [|by left].
    right. apply status_exists in Hst as (e & He & Hid & Hf & _).
    exists e. eexists. split_and!; [done..| |].
    + unfold Cache.stale. rewrite He. reflexivity.
    + run_simpl. unfold Cache.c_stale, Cache.stale. rewrite He. reflexivity.
  - unfold Cache.decay_ttd. run_simpl.
    destruct (Cache.status (Cache.cache s) key) as [[[ex sid] f] g] eqn:Hst.
    destruct ex; [|by left]. destruct f; [by left|]. destruct g; [by left|].
    destruct (Z.eqb_spec sid id) as [->|]; [|by left].
    right. apply status_exists in Hst as (e & He & Hid & Hf & Hg).
    exists e. split_and!; done.
  - intros Hne. unfold Cache.decay, Cache.decay_ttl, Cache.decay_ttd. run_simpl.
    destruct (Cache.status (Cache.cache s) key) as [[[ex sid] f] g] eqn:Hst.
    assert (ex = true → (sid =? id) = false) as Hsid.
    { intros ->. apply status_exists in Hst as (e & He & Hid & _).
      apply Z.eqb_neq. rewrite <- Hid. by apply Hne. }
    destruct ex; [rewrite Hsid by done|]; run_simpl;
      destruct f, g; run_simpl; rewrite ?Hst; run_simpl; rewrite ?Hsid by done; done.
  - eexists. split; [reflexivity|]. intros s'. simpl.
    destruct (Cache.status (Cache.cache s') key) as [[[ex sid] f] g].
    by destruct ex, f, (sid =? id).
  - eexists. split; [reflexivity|]. intros s'. simpl.
    destruct (Cache.status (Cache.cache s') key) as [[[ex sid] f] g].
    by destruct ex, f, g, (sid =? id).
Qed.

Lemma decay_guards_generation_witness :
  Cache.run (Cache.decay "/a" 2)
    {| Cache.cache := one_entry; Cache.writers := ∅; Cache.invocations := 1;
       Cache.entropy := [] |}
  = Some ({| Cache.cache := one_entry; Cache.writers := ∅; Cache.invocations := 1;
             Cache.entropy := [] |}, []).
Proof.
  apply (proj1 (proj2 (proj2 (decay_guards_generation "/a" 2 _ Cache.Return)))).
  intros e He. unfold one_entry, Cache.swap in He. simpl in He.
  rewrite lookup_insert_eq in He. injection He as <-. simpl. lia.
Defined.

(** ** Who writes to the response target *)

Ltac quiet_action :=
  let s := fresh "s" in let x := fresh "x" in let s' := fresh "s'" in
  let H := fresh "H" in
  intros s x s' H;
  unfold Cache.c_Key, Cache.c_status, Cache.c_swap, Cache.c_stale, Cache.c_kill,
    Cache.c_regen, Cache.rand_Intn, Cache.ServeHTTP, Cache.time_Sleep in H;
  repeat case_match; simplify_eq; reflexivity.

Lemma quiet_decay (key : string) (id : Z) : Cache.quiet (Cache.decay key id).
Proof.
  unfold Cache.decay, Cache.decay_ttl, Cache.decay_ttd. simpl.
  split; [quiet_action|]. intros _. split; [quiet_action|].
  intros [[[ex sid] f] g].
  assert (Cache.quiet
    (Cache.Atomic (Cache.time_Sleep Cache.TTD)
       (λ _, Cache.Atomic (Cache.c_status key)
          (λ st, let '(exists_, stale_id, fresh, regen) := st in
             (if exists_ && negb fresh && negb regen
              then if stale_id =? id then Cache.call (Cache.c_kill key) else Cache.skip
              else Cache.skip) Cache.Return)))) as Hd.
  { simpl. split; [quiet_action|]. intros _. split; [quiet_action|].
    intros [[[ex' sid'] f'] g'].
    destruct (ex' && negb f' && negb g'); [|done].
    destruct (sid' =? id); [|done]. simpl. split; [quiet_action|done]. }
  destruct (ex && f); [|exact Hd]. destruct (sid =? id); [|exact Hd].
  simpl. split; [quiet_action|]. intros _. exact Hd.
Qed.

Lemma quiet_regenerate (next : http_Handler) (key : string) (w : nat) (r : http_Request)
    (k : Cache.prog) :
  Cache.quiet k → Cache.quiet (Cache.regenerate next key w r k).
Proof.
  intros Hk. unfold Cache.regenerate. simpl.
  split; [quiet_action|]. intros id. split; [quiet_action|].
  intros e. split; [quiet_action|]. intros _. split; [apply quiet_decay|done].
Qed.

Lemma quiet_step1 (p : Cache.prog) (s : Cache.World) :
  Cache.quiet p →
  match Cache.step1 p s with
  | Cache.Stepped p' s' spawned =>
      Cache.writers s' = Cache.writers s ∧ Cache.quiet p' ∧ Forall Cache.quiet spawned
  | _ => True
  end.
Proof.
  destruct p as [|A a k|child k]; simpl; [done| |].
  - intros [Ha Hk]. destruct (a s) as [[x s']|] eqn:Has; [|done].
    split_and!; [by eapply Ha|done|done].
  - intros [Hc Hk]. split_and!; [done..|]. by constructor.
Qed.

(** C10. [regenerate] never writes to the response writer it is passed.
    Its program is quiet, whether run as its own goroutine or inside the
    request: the handler's calls land on the recorder just created, which is
    swapped in, and all writers are as before; the decay goroutine it starts
    is quiet too.  In any interleaving, a step of a goroutine running a quiet
    program leaves every writer unchanged, and what it goes on with, or
    starts, is quiet again. *)
Theorem regenerate_never_writes_target (next : http_Handler) (key : string) (w : nat)
    (r : http_Request) :
  Cache.quiet (Cache.regenerate next key w r Cache.Return)
  ∧ (∀ s,
       let id := hd 0 (Cache.entropy s) `mod` 1000000 in
       let e := ResponseCacher.calls (next (Cache.invocations s) r) (NewResponseCacher id) in
       Cache.run (Cache.regenerate next key w r Cache.Return) s
       = Some (Cache.mkWorld (Cache.swap (Cache.cache s) key e) (Cache.writers s)
                 (S (Cache.invocations s)) (tl (Cache.entropy s)),
               [Cache.decay key id])
       ∧ Cache.quiet (Cache.decay key id))
  ∧ (∀ σ i p, Cache.pool σ !! i = Some (Cache.Live p) → Cache.quiet p →
       Cache.writers (Cache.world (Cache.step i σ)) = Cache.writers (Cache.world σ)
       ∧ ∀ j q, Cache.pool (Cache.step i σ) !! j = Some (Cache.Live q) →
           Cache.pool σ !! j = Some (Cache.Live q) ∨ Cache.quiet q).
Proof.
  split_and!.
  - by apply quiet_regenerate.
  - intros s id e. split; [reflexivity|apply quiet_decay].
  - intros σ i p Hi Hp. unfold Cache.step. rewrite Hi.
    pose proof (quiet_step1 p (Cache.world σ) Hp) as Hs.
    destruct (Cache.step1 p (Cache.world σ)) as [p' s' sp| |]; simpl.
    + destruct Hs as (Hw & Hp' & Hsp). split; [done|].
      intros j q Hj. apply lookup_app_Some in Hj as [Hj|[Hlen Hj]].
      * destruct (decide (i = j)) as [->|Hne].
        -- rewrite list_lookup_insert_eq in Hj by (by eapply lookup_lt_Some).
           right. by simplify_eq.
        -- left. by rewrite list_lookup_insert_ne in Hj.
      * right. rewrite list_lookup_fmap in Hj.
        destruct (sp !! _) as [q'|] eqn:Hq; simpl in Hj; [|done].
        injection Hj as ->. by eapply Forall_lookup_1.
    + split; [done|]. intros j q Hj. left.
      destruct (decide (i = j)) as [->|Hne].
      * rewrite list_lookup_insert_eq in Hj by (by eapply lookup_lt_Some). done.
      * by rewrite list_lookup_insert_ne in Hj.
    + split; [done|]. by left.
Qed.

Lemma regenerate_never_writes_target_witness :
  Cache.writers
    (Cache.world
       (Cache.step 0
          {| Cache.world := Cache.world (burst 0);
             Cache.pool := [Cache.Live (Cache.regenerate hello "/a" 0 req Cache.Return)] |}))
  = ∅.
Proof.
  pose proof (regenerate_never_writes_target hello "/a" 0 req) as (Hq & _ & Hstep).
  apply (Hstep {| Cache.world := Cache.world (burst 0);
                  Cache.pool := [Cache.Live (Cache.regenerate hello "/a" 0 req Cache.Return)] |}
           0%nat _ eq_refl Hq).
Defined.

(** ** Requests one after the other *)

(** With an entry under the key, [serve] replays it. *)
Lemma serve_existing (c : Cache.t) (key : string) (w : http_ResponseWriter)
    (mark : bool) (i : Z) (f g : bool) :
  Cache.status c key = (true, i, f, g) →
  ∃ e, Cache.caches c !! key = Some (Some e)
       ∧ Cache.serve c key w mark = Some (ResponseCacher.Serve e w mark).
Proof.
  intros (e & He & _)%status_exists. exists e. unfold Cache.serve. by rewrite He.
Qed.

(** When the request that found the entry stale has run, the next request
    finds it regenerating: it serves, and starts nothing. *)
Lemma serial_requests_one_regeneration (next : http_Handler) (w w' : nat)
    (r : http_Request) (s : Cache.World) (i : Z) :
  let key := Key (Cache.Keymaker (Cache.cache s)) w r in
  Key (Cache.Keymaker (Cache.cache s)) w' r = key →
  Cache.status (Cache.cache s) key = (true, i, false, false) →
  ∃ s1 s2,
    Cache.run (Cache.Chain next w r) s
    = Some (s1, [Cache.regenerate next key w r Cache.Return])
    ∧ Cache.status (Cache.cache s1) key = (true, i, false, true)
    ∧ Cache.run (Cache.Chain next w' r) s1 = Some (s2, [])
    ∧ Cache.invocations s2 = Cache.invocations s.
Proof.
  intros key Hkey Hst.
  destruct (stale_request_refreshes next w r s i Hst) as (e & He & Hrun).
  fold key in He, Hrun.
  pose proof Hst as (e' & He' & Hid & Hf & Hg)%status_exists.
  rewrite He in He'. injection He' as <-. subst i.
  set (s1 := Cache.mkWorld _ _ _ _) in *.
  assert (Cache.status (Cache.cache s1) key
          = (true, ResponseCacher.id e, false, true)) as Hst1.
  { unfold Cache.status, s1. simpl. rewrite lookup_insert_eq. simpl. by rewrite Hf. }
  assert (Key (Cache.Keymaker (Cache.cache s1)) w' r = key) as Hkey1 by exact Hkey.
  destruct (hit_request_serves next w' r s1 (ResponseCacher.id e) false true)
    as (e1 & _ & Hrun1).
  { by rewrite Hkey1. }
  { done. }
  exists s1. eexists. split; [exact Hrun|]. split; [exact Hst1|].
  split; [exact Hrun1|done].
Qed.

(** ** The lifecycle invariant, method by method *)

Lemma invariant_NewCache (keymaker : Keyer) (ttl ttd : Z) :
  regen_implies_stale (Cache.NewCache keymaker ttl ttd).
Proof. intros key e He _. simpl in He. by rewrite lookup_empty in He. Qed.

Lemma invariant_swap (c : Cache.t) (key : string) (ops : list WriterCall) (id : Z) :
  regen_implies_stale c →
  regen_implies_stale (Cache.swap c key (ResponseCacher.calls ops (NewResponseCacher id))).
Proof.
  intros Hc key' e He Hg. unfold Cache.swap in He. simpl in He.
  destruct (decide (key = key')) as [->|Hne].
  - rewrite lookup_insert_eq in He. injection He as <-.
    destruct (calls_lifecycle ops (NewResponseCacher id)) as (_ & _ & Hg').
    rewrite Hg' in Hg. discriminate.
  - rewrite lookup_insert_ne in He by done. by eapply Hc.
Qed.

Lemma invariant_stale (c c' : Cache.t) (key : string) :
  regen_implies_stale c → Cache.stale c key = Some c' → regen_implies_stale c'.
Proof.
  intros Hc Hs key' e He Hg. unfold Cache.stale in Hs.
  destruct (Cache.caches c !! key) as [[e0|]|] eqn:H0; simplify_eq. simpl in He.
  destruct (decide (key = key')) as [->|Hne].
  - rewrite lookup_insert_eq in He. by simplify_eq.
  - rewrite lookup_insert_ne in He by done. by eapply Hc.
Qed.

Lemma invariant_kill (c : Cache.t) (key : string) :
  regen_implies_stale c → regen_implies_stale (Cache.kill c key).
Proof.
  intros Hc key' e He Hg. unfold Cache.kill in He. simpl in He.
  destruct (decide (key = key')) as [->|Hne].
  - by rewrite lookup_insert_eq in He.
  - rewrite lookup_insert_ne in He by done. by eapply Hc.
Qed.

(** [regen] keeps the invariant when the entry it marks is stale at that
    moment, which is what the status check before it had seen. *)
Lemma invariant_regen (c c' : Cache.t) (key : string) (i : Z) (g : bool) :
  regen_implies_stale c → Cache.status c key = (true, i, false, g) →
  Cache.regen c key = Some c' → regen_implies_stale c'.
Proof.
  intros Hc (e0 & H0 & _ & Hf & _)%status_exists Hr key' e He Hg.
  unfold Cache.regen in Hr. rewrite H0 in Hr. simplify_eq. simpl in He.
  destruct (decide (key = key')) as [->|Hne].
  - rewrite lookup_insert_eq in He. by simplify_eq.
  - rewrite lookup_insert_ne in He by done. by eapply Hc.
Qed.

(** ** Requests at the same time *)

(** C1, where the code departs from it.  One request fills the cache and the
    entry goes stale: one downstream invocation so far.  Two requests then
    arrive together; both read the status before either has marked the entry,
    so both mark it and both start a regeneration.  Both are served the
    stale entry with the marker, and the handler has run three times, twice
    for the one stale entry. *)
Theorem stampede_two_regenerations :
  let σ := Cache.exec (fill ++ ttl_expires 3) (burst 3) in
  let σ' := Cache.exec stampede σ in
  Cache.status (Cache.cache (Cache.world σ)) "/a" = (true, 11, false, false)
  ∧ Cache.invocations (Cache.world σ) = 1%nat
  ∧ Cache.invocations (Cache.world σ') = 3%nat
  ∧ (rw_body <$> Cache.writers (Cache.world σ') !! 1%nat) = Some [x68; x69; x0a]
  ∧ (rw_body <$> Cache.writers (Cache.world σ') !! 2%nat) = Some [x68; x69; x0a]
  ∧ (Header_Values "X-From-BurstCache" ∘ rw_Header <$> Cache.writers (Cache.world σ') !! 1%nat)
    = Some ["1"%string]
  ∧ (Header_Values "X-From-BurstCache" ∘ rw_Header <$> Cache.writers (Cache.world σ') !! 2%nat)
    = Some ["1"%string].
Proof. vm_compute. split_and!; reflexivity. Qed.

(** C4, where the code departs from it.  Starting from the empty cache, the
    schedule [late_mark] leads to a live entry that is fresh and marked
    regenerating: the request's status check saw the old, stale entry, and
    its [regen] call marked the entry swapped in since. *)
Theorem fresh_entry_marked_regenerating :
  let σ := Cache.exec (fill ++ ttl_expires 3 ++ late_mark) (burst 3) in
  regen_implies_stale (Cache.cache (Cache.world (Cache.exec (fill ++ ttl_expires 3) (burst 3))))
  ∧ Cache.status (Cache.cache (Cache.world σ)) "/a" = (true, 22, true, true)
  ∧ ¬ regen_implies_stale (Cache.cache (Cache.world σ)).
Proof.
  split_and!.
  - intros key e He Hg.
    assert (Cache.caches (Cache.cache (Cache.world
              (Cache.exec (fill ++ ttl_expires 3) (burst 3))))
            = {[ "/a"%string := Some (ResponseCacher.set_fresh false
                   (ResponseCacher.calls (hello 0%nat req) (NewResponseCacher 11))) ]})
      as Heq by (vm_compute; reflexivity).
    rewrite Heq in He. apply lookup_singleton_Some in He as [_ He].
    injection He as <-. reflexivity.
  - vm_compute. reflexivity.
  - intros Hinv.
    assert (Cache.status (Cache.cache (Cache.world
              (Cache.exec (fill ++ ttl_expires 3 ++ late_mark) (burst 3)))) "/a"
            = (true, 22, true, true)) as Hst by (vm_compute; reflexivity).
    apply status_exists in Hst as (e & He & _ & Hf & Hg).
    specialize (Hinv _ _ He Hg). congruence.
Qed.

(** C7, where the code departs from it.  The request has seen the entry
    (stale, not regenerating); the decay goroutine, whose own check came just
    before, kills it; the request's [serve] then dereferences nil: the
    goroutine has crashed and its writer has received nothing. *)
Theorem serve_after_kill_faults :
  let σ := Cache.exec (fill ++ ttl_expires 2) (burst 2) in
  let σ' := Cache.exec killed_before_serve σ in
  Cache.status (Cache.cache (Cache.world σ)) "/a" = (true, 11, false, false)
  ∧ Cache.pool σ' !! 1%nat = Some Cache.Crashed
  ∧ Cache.writers (Cache.world σ') !! 1%nat = None
  ∧ Cache.status (Cache.cache (Cache.world σ')) "/a" = (false, 0, false, false).
Proof. vm_compute. split_and!; reflexivity. Qed.

(** C3, where the code departs from it.  One request on an empty cache,
    whatever TTL and TTD are.  The request runs the handler once, swaps the
    entry in (fresh, id 11) and starts the decay goroutine for id 11, all as
    claimed.  Its [serve] is a later critical section: under the schedule
    [killed_after_swap] the decay goroutine has by then marked the entry
    stale and killed it, so [serve] dereferences nil: the request goroutine
    has crashed and its writer has received nothing. *)
Theorem own_decay_kills_before_serve (ttl ttd : Z) :
  let σ := Cache.exec (take 6 killed_after_swap) (lone_request ttl ttd) in
  let σ' := Cache.exec killed_after_swap (lone_request ttl ttd) in
  Cache.status (Cache.cache (Cache.world σ)) "/a" = (true, 11, true, false)
  ∧ Cache.invocations (Cache.world σ) = 1%nat
  ∧ Cache.pool σ !! 1%nat = Some (Cache.Live (Cache.decay "/a" 11))
  ∧ Cache.pool σ' !! 0%nat = Some Cache.Crashed
  ∧ Cache.writers (Cache.world σ') !! 0%nat = None
  ∧ Cache.status (Cache.cache (Cache.world σ')) "/a" = (false, 0, false, false)
  ∧ Cache.invocations (Cache.world σ') = 1%nat.
Proof.
  split_and!.
  - vm_compute. reflexivity.
  - vm_compute. reflexivity.
  - reflexivity.
  - vm_compute. reflexivity.
  - vm_compute. reflexivity.
  - vm_compute. reflexivity.
  - vm_compute. reflexivity.
Qed.

(** C2, where the code departs from it.  Request 0 has filled the cache
    (entry of id 11) and goroutine 2, its decay goroutine, has marked the
    entry stale and has its second half left.  Under the schedule
    [foreign_kill] that goroutine takes the status while the entry of id 11
    is stale and not regenerating, and passes its guard; a request then
    marks the entry and its regeneration swaps in a fresh entry of id 22,
    whose own decay goroutine is not even started (the pool holds four
    goroutines); the last step, by goroutine 2, is the [kill] call: the
    timer of id 11 removes the entry of id 22. *)
Theorem foreign_timer_kills_new_entry :
  let σ0 := Cache.exec (fill ++ ttl_expires 2) (burst 2) in
  let σ := Cache.exec (take 9 foreign_kill) σ0 in
  let σ' := Cache.exec foreign_kill σ0 in
  Cache.pool σ0 !! 2%nat = Some (Cache.Live (Cache.decay_ttd "/a" 11 Cache.Return))
  ∧ Cache.status (Cache.cache (Cache.world σ0)) "/a" = (true, 11, false, false)
  ∧ Cache.status (Cache.cache (Cache.world σ)) "/a" = (true, 22, true, false)
  ∧ length (Cache.pool σ) = 4%nat
  ∧ foreign_kill = take 9 foreign_kill ++ [2%nat]
  ∧ Cache.status (Cache.cache (Cache.world σ')) "/a" = (false, 0, false, false).
Proof.
  split_and!; [reflexivity|vm_compute; reflexivity..].
Qed.

(** * Further properties of the code *)

(** ** The recorder as a sink, and what comes back out of it *)

Lemma calls_Body_written (ops : list WriterCall) (c : ResponseCacher.t) (b : list byte) :
  ResponseCacher.Body c = Some b →
  ResponseCacher.Body (ResponseCacher.calls ops c) = Some (b ++ written ops).
Proof.
  revert c b. induction ops as [|op ops IH]; intros c b Hb.
  { by rewrite app_nil_r. }
  rewrite calls_cons.
  destruct op; unfold written; simpl; fold (written ops);
    try (apply IH; recorder_unfold; simpl;
         destruct (ResponseCacher.wroteHeader c); simpl; by rewrite ?Hb).
  rewrite app_assoc. apply IH. recorder_unfold.
  destruct (ResponseCacher.wroteHeader c); simpl; by rewrite Hb.
Qed.

Lemma calls_Body_nil (ops : list WriterCall) (c : ResponseCacher.t) :
  ResponseCacher.Body c = None →
  ResponseCacher.Body (ResponseCacher.calls ops c) = None.
Proof.
  revert c. induction ops as [|op ops IH]; intros c Hb; [done|].
  rewrite calls_cons. apply IH.
  destruct op; recorder_unfold; simpl;
    destruct (ResponseCacher.wroteHeader c); simpl; by rewrite ?Hb.
Qed.

(** X1. The body of a recorder made by [NewResponseCacher] is the
    concatenation, in call order, of the buffers of the [Write] calls made
    on it; header calls, [WriteHeader] and [Flush] never touch it. *)
Theorem recorder_body_in_order (id : Z) (ops : list WriterCall) :
  ResponseCacher.Body (ResponseCacher.calls ops (NewResponseCacher id))
  = Some (written ops).
Proof. by rewrite (calls_Body_written ops _ []). Qed.

(** X2. On a recorder whose [Body] is nil, [Write] still reports
    [len(buf), nil] and still records the implicit status, but the bytes are
    dropped: the body stays nil whatever is called, and serving the recorder
    writes the five bytes of <nil> and a newline. *)
Theorem Write_on_nil_body (c : ResponseCacher.t) (buf : list byte)
    (ops : list WriterCall) (order : list (string * list string))
    (w : http_ResponseWriter) (mark : bool) :
  ResponseCacher.Body c = None →
  (ResponseCacher.Write buf c).2 = (Z.of_nat (length buf), None)
  ∧ ResponseCacher.wroteHeader (ResponseCacher.Write buf c).1 = true
  ∧ ResponseCacher.Body (ResponseCacher.calls (CallWrite buf :: ops) c) = None
  ∧ rw_body (ResponseCacher.Serve_in order
               (ResponseCacher.calls (CallWrite buf :: ops) c) w mark)
    = rw_body w ++ [x3c; x6e; x69; x6c; x3e; x0a].
Proof.
  intros Hb.
  assert (ResponseCacher.Body (ResponseCacher.calls (CallWrite buf :: ops) c) = None)
    as Hn by (by apply calls_Body_nil).
  split_and!; [done| |done|].
  - recorder_unfold. destruct (ResponseCacher.wroteHeader c) eqn:Hw; simpl;
      rewrite Hb; done.
  - by rewrite Serve_body, Hn.
Qed.

Lemma Write_on_nil_body_witness :
  ResponseCacher.Body
    (ResponseCacher.calls [CallWrite [x68; x69]]
       (ResponseCacher.set_Body None (NewResponseCacher 1))) = None
  ∧ rw_body (ResponseCacher.Serve
               (ResponseCacher.calls [CallWrite [x68; x69]]
                  (ResponseCacher.set_Body None (NewResponseCacher 1))) newWriter false)
    = [x3c; x6e; x69; x6c; x3e; x0a].
Proof.
  destruct (Write_on_nil_body (ResponseCacher.set_Body None (NewResponseCacher 1))
              [x68; x69] [] (map_to_list ∅) newWriter false eq_refl)
    as (_ & _ & Hbody & Hserved).
  split; [exact Hbody|exact Hserved].
Defined.

(** X3. Recording and replaying compose: whatever a handler calls on a new
    recorder, serving that recorder appends to the target's body the bytes
    the handler wrote, in order, plus one newline, and makes exactly one
    [WriteHeader] call on the target, with the first status the handler set
    (200 if it wrote without setting one) and with 0 if the handler neither
    wrote nor set a status. *)
Theorem record_then_serve (id : Z) (ops : list WriterCall)
    (order : list (string * list string)) (w : http_ResponseWriter) (mark : bool) :
  let c := ResponseCacher.calls ops (NewResponseCacher id) in
  rw_body (ResponseCacher.Serve_in order c w mark) = rw_body w ++ written ops ++ [x0a]
  ∧ rw_codes (ResponseCacher.Serve_in order c w mark)
    = rw_codes w ++ [default 0 (head (omap headerWritten ops))].
Proof.
  intros c. split.
  - rewrite Serve_body. unfold c. by rewrite (calls_Body_written ops _ []).
  - change (rw_codes (ResponseCacher.Serve_in order c w mark))
      with (rw_codes w ++ [ResponseCacher.Code c]).
    unfold c. by rewrite calls_first_status.
Qed.

(** ** Headers on the target *)

(** X4. [Serve] only sets headers.  A header of the target whose name is not
    the canonical form of a captured header holding a value, and is not the
    marker when [mark] is set, is left exactly as it was; so with
    [mark = false] a target that carried no marker, served an entry that
    captured none, still carries none. *)
Theorem Serve_keeps_other_headers (c : ResponseCacher.t) (w : http_ResponseWriter)
    (mark : bool) (order : list (string * list string)) (ck : string) :
  (∀ k v vs, (k, v :: vs) ∈ order → CanonicalMIMEHeaderKey k ≠ ck) →
  mark = false ∨ ck ≠ CanonicalMIMEHeaderKey "X-From-BurstCache" →
  rw_Header (ResponseCacher.Serve_in order c w mark) !! ck = rw_Header w !! ck.
Proof.
  intros Hne Hmark. unfold ResponseCacher.Serve_in. simpl.
  destruct mark.
  - destruct Hmark as [?|Hck]; [done|].
    unfold Header_Set. rewrite lookup_insert_ne by done. by apply replayHead_other.
  - by apply replayHead_other.
Qed.

Lemma Serve_keeps_other_headers_witness :
  rw_Header (ResponseCacher.Serve plain newWriter false) !! "X-From-Burstcache" = None
  ∧ rw_Header (ResponseCacher.Serve plain
                 (rw_setHeader {[ "Etag"%string := ["7"%string] ]} newWriter) true)
    !! "Etag" = Some ["7"%string].
Proof.
  split.
  - apply (Serve_keeps_other_headers plain newWriter false
             (map_to_list (ResponseCacher.Head plain)) "X-From-Burstcache").
    + intros k v vs Hin. apply elem_of_map_to_list in Hin. simpl in Hin.
      apply lookup_singleton_Some in Hin as [<- _]. vm_compute. discriminate.
    + by left.
  - unfold ResponseCacher.Serve.
    rewrite (Serve_keeps_other_headers plain
               (rw_setHeader {[ "Etag"%string := ["7"%string] ]} newWriter) true
               (map_to_list (ResponseCacher.Head plain)) "Etag").
    + apply lookup_singleton_eq.
    + intros k v vs Hin. apply elem_of_map_to_list in Hin. simpl in Hin.
      apply lookup_singleton_Some in Hin as [<- _]. vm_compute. discriminate.
    + right. vm_compute. discriminate.
Defined.

(** ** The store, method by method *)

(** X5. [swap] installs unconditionally: whatever the key held before (an
    entry, nil, or nothing), [status] then reports the new entry with its id
    and flags and [serve] replays it; and of two swaps on a key only the last
    one counts. *)
Theorem swap_then_status (c : Cache.t) (key : string) (e e' : ResponseCacher.t)
    (w : http_ResponseWriter) (mark : bool) :
  Cache.status (Cache.swap c key e) key
  = (true, ResponseCacher.id e, ResponseCacher.fresh e, ResponseCacher.regen e)
  ∧ Cache.serve (Cache.swap c key e) key w mark = Some (ResponseCacher.Serve e w mark)
  ∧ Cache.swap (Cache.swap c key e') key e = Cache.swap c key e
  ∧ Cache.swap (Cache.kill c key) key e = Cache.swap c key e.
Proof.
  unfold Cache.status, Cache.serve, Cache.swap, Cache.kill, Cache.set_caches. simpl.
  rewrite lookup_insert_eq, !insert_insert_eq. done.
Qed.

(** X6. Every store method works on its key alone: after [swap], [kill],
    [stale] or [regen] on [key], any other key has the same status and is
    served the same. *)
Theorem store_methods_are_local (c : Cache.t) (key key' : string)
    (e : ResponseCacher.t) (w : http_ResponseWriter) (mark : bool) :
  key' ≠ key →
  (Cache.status (Cache.swap c key e) key' = Cache.status c key'
   ∧ Cache.serve (Cache.swap c key e) key' w mark = Cache.serve c key' w mark)
  ∧ (Cache.status (Cache.kill c key) key' = Cache.status c key'
     ∧ Cache.serve (Cache.kill c key) key' w mark = Cache.serve c key' w mark)
  ∧ (∀ c', Cache.stale c key = Some c' →
       Cache.status c' key' = Cache.status c key'
       ∧ Cache.serve c' key' w mark = Cache.serve c key' w mark)
  ∧ (∀ c', Cache.regen c key = Some c' →
       Cache.status c' key' = Cache.status c key'
       ∧ Cache.serve c' key' w mark = Cache.serve c key' w mark).
Proof.
  intros Hne. unfold Cache.status, Cache.serve, Cache.swap, Cache.kill, Cache.stale,
    Cache.regen, Cache.set_caches. simpl.
  split_and!; try (by rewrite lookup_insert_ne);
    intros c' Hc'; destruct (Cache.caches c !! key) as [[e0|]|]; simplify_eq; simpl;
    by rewrite lookup_insert_ne.
Qed.

Lemma store_methods_are_local_witness :
  Cache.status (Cache.kill (Cache.swap one_entry "/b" (NewResponseCacher 2)) "/b") "/a"
  = (true, 1, true, false).
Proof.
  destruct (store_methods_are_local (Cache.swap one_entry "/b" (NewResponseCacher 2))
              "/b" "/a" (NewResponseCacher 2) newWriter false ltac:(done))
    as (_ & [Hkill _] & _).
  destruct (store_methods_are_local one_entry "/b" "/a" (NewResponseCacher 2)
              newWriter false ltac:(done)) as ([Hswap _] & _).
  rewrite Hkill, Hswap. reflexivity.
Defined.

(** X7. The lifecycle marks never change what is served.  On an existing
    entry [stale] and [regen] both succeed; the status afterwards differs
    from the one before in the marked flag only (same id); and [serve]
    writes to the target exactly what it would have written before. *)
Theorem marks_keep_what_is_served (c : Cache.t) (key : string) (i : Z) (f g : bool)
    (w : http_ResponseWriter) (mark : bool) :
  Cache.status c key = (true, i, f, g) →
  ∃ c1 c2,
    Cache.stale c key = Some c1 ∧ Cache.regen c key = Some c2
    ∧ Cache.status c1 key = (true, i, false, g)
    ∧ Cache.status c2 key = (true, i, f, true)
    ∧ Cache.serve c1 key w mark = Cache.serve c key w mark
    ∧ Cache.serve c2 key w mark = Cache.serve c key w mark.
Proof.
  intros (e & He & <- & <- & <-)%status_exists.
  unfold Cache.stale, Cache.regen, Cache.status, Cache.serve. rewrite He.
  eexists _, _. split_and!; try reflexivity; simpl; by rewrite lookup_insert_eq.
Qed.

Lemma marks_keep_what_is_served_witness :
  ∃ c1 c2,
    Cache.stale one_entry "/a" = Some c1 ∧ Cache.regen one_entry "/a" = Some c2
    ∧ Cache.status c1 "/a" = (true, 1, false, false)
    ∧ Cache.status c2 "/a" = (true, 1, true, true)
    ∧ Cache.serve c1 "/a" newWriter true = Cache.serve one_entry "/a" newWriter true
    ∧ Cache.serve c2 "/a" newWriter true = Cache.serve one_entry "/a" newWriter true.
Proof.
  apply (marks_keep_what_is_served one_entry "/a" 1 true false newWriter true).
  reflexivity.
Defined.

(** X8. [serve], [stale] and [regen] fault on exactly the keys for which
    [status] reports no entry: a key never cached, or a killed one.  On a
    cache fresh from [NewCache] that is every key. *)
Theorem faults_exactly_on_missing (c : Cache.t) (key : string)
    (w : http_ResponseWriter) (mark : bool) :
  (Cache.serve c key w mark = None ↔ Cache.status c key = (false, 0, false, false))
  ∧ (Cache.stale c key = None ↔ Cache.status c key = (false, 0, false, false))
  ∧ (Cache.regen c key = None ↔ Cache.status c key = (false, 0, false, false))
  ∧ (∀ keymaker ttl ttd,
       Cache.status (Cache.NewCache keymaker ttl ttd) key = (false, 0, false, false)).
Proof.
  unfold Cache.serve, Cache.stale, Cache.regen, Cache.status.
  split_and!; [destruct (Cache.caches c !! key) as [[e|]|]; split; done..|].
  intros keymaker ttl ttd. simpl. by rewrite lookup_empty.
Qed.

(** X9. No store method ever takes a key out of the map: after [swap],
    [kill], [stale] or [regen] every key of the map is still a key of it, and
    [kill] of a key that was never cached even adds it. *)
Theorem store_never_forgets_a_key (c : Cache.t) (key : string) (e : ResponseCacher.t) :
  dom (Cache.caches c) ⊆ dom (Cache.caches (Cache.swap c key e))
  ∧ dom (Cache.caches (Cache.kill c key)) = {[ key ]} ∪ dom (Cache.caches c)
  ∧ (∀ c', Cache.stale c key = Some c' → dom (Cache.caches c') = dom (Cache.caches c))
  ∧ (∀ c', Cache.regen c key = Some c' → dom (Cache.caches c') = dom (Cache.caches c)).
Proof.
  unfold Cache.swap, Cache.kill, Cache.stale, Cache.regen, Cache.set_caches. simpl.
  split_and!.
  - rewrite dom_insert_L. apply union_subseteq_r.
  - by rewrite dom_insert_L.
  - intros c' Hc'. destruct (Cache.caches c !! key) as [[e0|]|] eqn:Hk; try done.
    injection Hc' as <-. simpl. rewrite dom_insert_L.
    apply subseteq_union_1_L, singleton_subseteq_l. by eapply elem_of_dom_2.
  - intros c' Hc'. destruct (Cache.caches c !! key) as [[e0|]|] eqn:Hk; try done.
    injection Hc' as <-. simpl. rewrite dom_insert_L.
    apply subseteq_union_1_L, singleton_subseteq_l. by eapply elem_of_dom_2.
Qed.

Lemma store_never_forgets_a_key_witness :
  dom (Cache.caches (Cache.kill (Cache.NewCache Keymaker 250 750) "/a"))
  = {[ "/a"%string ]} ∪ dom (Cache.caches (Cache.NewCache Keymaker 250 750))
  ∧ ∃ c', Cache.stale one_entry "/a" = Some c'
          ∧ dom (Cache.caches c') = dom (Cache.caches one_entry).
Proof.
  split.
  - apply (store_never_forgets_a_key (Cache.NewCache Keymaker 250 750) "/a"
             (NewResponseCacher 1)).
  - eexists. split; [reflexivity|].
    destruct (store_never_forgets_a_key one_entry "/a" (NewResponseCacher 1))
      as (_ & _ & Hstale & _).
    apply Hstale. reflexivity.
Defined.

(** ** Goroutines one at a time *)

Lemma run_Chain_miss (next : http_Handler) (w : nat) (r : http_Request)
    (s : Cache.World) (i : Z) (f g : bool) :
  let key := Key (Cache.Keymaker (Cache.cache s)) w r in
  Cache.status (Cache.cache s) key = (false, i, f, g) →
  let id := hd 0 (Cache.entropy s) `mod` 1000000 in
  let e := ResponseCacher.calls (next (Cache.invocations s) r) (NewResponseCacher id) in
  Cache.run (Cache.Chain next w r) s
  = Some (Cache.mkWorld (Cache.swap (Cache.cache s) key e)
            (<[w := ResponseCacher.Serve e (Cache.writer s w) false]> (Cache.writers s))
            (S (Cache.invocations s)) (tl (Cache.entropy s)),
          [Cache.decay key id]).
Proof.
  intros key Hst id e.
  unfold Cache.Chain. run_simpl. fold key. rewrite Hst. run_simpl.
  rewrite run_regenerate. fold id e. run_simpl.
  unfold Cache.c_serve, Cache.serve, Cache.swap. cbn.
  by rewrite lookup_insert_eq.
Qed.

(** The decay goroutine alone, by what it finds under the key. *)
Lemma run_decay_own (key : string) (id : Z) (s : Cache.World) (e : ResponseCacher.t) :
  Cache.caches (Cache.cache s) !! key = Some (Some e) →
  ResponseCacher.id e = id → ResponseCacher.regen e = false →
  Cache.run (Cache.decay key id) s
  = Some (Cache.set_cache (Cache.kill (Cache.cache s) key) s, []).
Proof.
  intros He <- Hg. unfold Cache.decay, Cache.decay_ttl, Cache.decay_ttd. run_simpl.
  unfold Cache.status at 1. rewrite He, Z.eqb_refl.
  destruct (ResponseCacher.fresh e) eqn:Hf; run_simpl.
  - unfold Cache.c_stale, Cache.stale. rewrite He. run_simpl.
    unfold Cache.status. simpl. rewrite lookup_insert_eq. simpl.
    rewrite Hg, Z.eqb_refl. run_simpl.
    unfold Cache.kill, Cache.set_caches. simpl. by rewrite insert_insert_eq.
  - unfold Cache.status. rewrite He, Hg, Hf, Z.eqb_refl. by run_simpl.
Qed.

Lemma run_decay_other (key : string) (id : Z) (s : Cache.World) :
  (∀ e, Cache.caches (Cache.cache s) !! key = Some (Some e) →
     ResponseCacher.id e ≠ id ∨ (ResponseCacher.fresh e = false ∧ ResponseCacher.regen e = true)) →
  Cache.run (Cache.decay key id) s = Some (s, []).
Proof.
  intros Hne. unfold Cache.decay, Cache.decay_ttl, Cache.decay_ttd. run_simpl.
  destruct (Cache.status (Cache.cache s) key) as [[[ex sid] f] g] eqn:Hst.
  destruct ex; [|run_simpl; rewrite Hst; by run_simpl].
  pose proof Hst as (e & He & Hid & Hf & Hg)%status_exists.
  destruct (Hne e He) as [Hx|[Hf' Hg']].
  - assert ((sid =? id) = false) as Hsid by (apply Z.eqb_neq; congruence).
    rewrite Hsid. destruct f; run_simpl; rewrite Hst; run_simpl; rewrite ?Hsid;
      destruct g; by run_simpl.
  - assert (f = false) as -> by congruence. assert (g = true) as -> by congruence.
    run_simpl. rewrite Hst. by run_simpl.
Qed.

(** X10. A request goroutine left alone never dereferences a missing entry,
    whatever the store holds: every store call of [Chain] and [regenerate]
    succeeds, the goroutine ends with an entry under its key, has made at
    most one downstream invocation and started at most one goroutine, and
    has made one [Serve] call, on its own writer and on no other, marked
    exactly when the entry was there before the request.  The writer is the
    log of the calls it receives: whether a live writer accepts them (the
    replayed status code is 0 when the handler wrote nothing) is not part of
    this. *)
Theorem Chain_alone_serves_once (next : http_Handler) (w : nat) (r : http_Request)
    (s : Cache.World) :
  let key := Key (Cache.Keymaker (Cache.cache s)) w r in
  ∃ s' l e,
    Cache.run (Cache.Chain next w r) s = Some (s', l)
    ∧ Cache.caches (Cache.cache s') !! key = Some (Some e)
    ∧ Cache.writers s'
      = <[w := ResponseCacher.Serve e (Cache.writer s w)
                 (Cache.status (Cache.cache s) key).1.1.1]> (Cache.writers s)
    ∧ (length l ≤ 1)%nat
    ∧ (Cache.invocations s' = Cache.invocations s
       ∨ (Cache.status (Cache.cache s) key).1.1.1 = false
         ∧ Cache.invocations s' = S (Cache.invocations s)).
Proof.
  intros key.
  destruct (Cache.status (Cache.cache s) key) as [[[ex sid] f] g] eqn:Hst.
  destruct ex.
  - destruct (negb f && negb g) eqn:Hfg.
    + assert (f = false ∧ g = false) as [-> ->] by (by destruct f, g).
      destruct (stale_request_refreshes next w r s sid Hst) as (e & He & Hrun).
      fold key in He, Hrun.
      eexists _, _, _. split; [exact Hrun|]. simpl.
      split_and!; [by rewrite lookup_insert_eq|done|done|by left].
    + destruct (hit_request_serves next w r s sid f g Hst) as (e & He & Hrun).
      { by destruct f, g. }
      fold key in He, Hrun.
      eexists _, _, _. split; [exact Hrun|]. simpl.
      split_and!; [done|done|lia|by left].
  - pose proof (run_Chain_miss next w r s sid f g Hst) as Hrun. fold key in Hrun.
    eexists _, _, _. split; [exact Hrun|]. simpl.
    split_and!; [by rewrite lookup_insert_eq|done|done|by right].
Qed.

(** Requests that find a fresh or a regenerating entry, one after the
    other: each one serves, nothing else happens. *)
Lemma run_each_hits (next : http_Handler) (r : http_Request) (key : string)
    (e : ResponseCacher.t) (ws : list nat) (s : Cache.World) :
  Cache.caches (Cache.cache s) !! key = Some (Some e) →
  ResponseCacher.fresh e || ResponseCacher.regen e = true →
  (∀ w, w ∈ ws → Key (Cache.Keymaker (Cache.cache s)) w r = key) →
  run_each ((λ w, Cache.Chain next w r) <$> ws) s
  = Some (Cache.set_writers
            (foldl (λ m w, <[w := ResponseCacher.Serve e (default newWriter (m !! w)) true]> m)
               (Cache.writers s) ws) s,
          []).
Proof.
  revert s. induction ws as [|w ws IH]; intros s He Hfg Hkey.
  { by destruct s. }
  rewrite fmap_cons. cbn [run_each].
  assert (Key (Cache.Keymaker (Cache.cache s)) w r = key) as Hw
    by apply Hkey, list_elem_of_here.
  destruct (hit_request_serves next w r s (ResponseCacher.id e)
              (ResponseCacher.fresh e) (ResponseCacher.regen e)) as (e' & He' & Hrun).
  { rewrite Hw. unfold Cache.status. by rewrite He. }
  { done. }
  rewrite Hw, He in He'. injection He' as <-.
  rewrite Hrun. rewrite IH; [done|done|done|].
  intros w' Hw'. apply Hkey. by apply list_elem_of_further.
Qed.

(** X11. Any number of requests handled one after the other while the entry
    under their key is fresh (or is being regenerated) cost nothing
    downstream: the handler is not invoked, no goroutine is started, the
    store is untouched, and each request's writer is served the entry with
    the marker. *)
Theorem hits_invoke_nothing (next : http_Handler) (r : http_Request) (key : string)
    (e : ResponseCacher.t) (ws : list nat) (s : Cache.World) :
  Cache.caches (Cache.cache s) !! key = Some (Some e) →
  ResponseCacher.fresh e || ResponseCacher.regen e = true →
  (∀ w, w ∈ ws → Key (Cache.Keymaker (Cache.cache s)) w r = key) →
  ∃ s',
    run_each ((λ w, Cache.Chain next w r) <$> ws) s = Some (s', [])
    ∧ Cache.cache s' = Cache.cache s
    ∧ Cache.invocations s' = Cache.invocations s
    ∧ Cache.writers s'
      = foldl (λ m w, <[w := ResponseCacher.Serve e (default newWriter (m !! w)) true]> m)
          (Cache.writers s) ws.
Proof.
  intros He Hfg Hkey. eexists.
  split; [exact (run_each_hits next r key e ws s He Hfg Hkey)|done].
Qed.

Lemma hits_invoke_nothing_witness :
  ∃ s',
    run_each ((λ w, Cache.Chain hello w req) <$> [1; 2; 3]%nat)
      {| Cache.cache := one_entry; Cache.writers := ∅; Cache.invocations := 1;
         Cache.entropy := [] |} = Some (s', [])
    ∧ Cache.cache s' = one_entry
    ∧ Cache.invocations s' = 1%nat
    ∧ Cache.writers s'
      = foldl (λ m w, <[w := ResponseCacher.Serve (NewResponseCacher 1)
                              (default newWriter (m !! w)) true]> m) ∅ [1; 2; 3]%nat.
Proof.
  apply (hits_invoke_nothing hello req "/a" (NewResponseCacher 1) [1; 2; 3]%nat
           {| Cache.cache := one_entry; Cache.writers := ∅; Cache.invocations := 1;
              Cache.entropy := [] |}).
  - reflexivity.
  - reflexivity.
  - intros w _. reflexivity.
Defined.

(** A request that finds its entry fresh or regenerating takes its key,
    takes the status and serves: each step succeeds and changes no more than
    a writer, as long as the entry stays that way. *)
Lemma Chain_bystander (next : http_Handler) (w : nat) (r : http_Request)
    (km : Keyer) (key : string) :
  Key km w r = key →
  bystander (live_entry km key) (Cache.Chain next w r).
Proof.
  intros Hw. unfold Cache.Chain. cbn [bystander].
  intros s [Hkm _]. eexists _, _. split; [reflexivity|].
  split_and!; [done..|]. rewrite Hkm, Hw.
  intros s2 [_ (e & He & Hfg)]. eexists _, _. split; [reflexivity|].
  split_and!; [done..|].
  unfold Cache.status. rewrite He. cbn [negb].
  assert (negb (ResponseCacher.fresh e) && negb (ResponseCacher.regen e) = false) as ->.
  { by destruct (ResponseCacher.fresh e), (ResponseCacher.regen e). }
  unfold Cache.skip. cbn [bystander].
  intros s3 [_ (e3 & He3 & _)]. unfold Cache.c_serve, Cache.serve. rewrite He3.
  eexists _, _. split; [reflexivity|]. done.
Qed.

Lemma serve_bystander (km : Keyer) (key : string) (w : nat) (mark : bool) :
  bystander (live_entry km key)
    (Cache.Atomic (Cache.c_serve key w mark) (λ _, Cache.Return)).
Proof.
  cbn [bystander]. intros s [_ (e & He & _)].
  unfold Cache.c_serve, Cache.serve. rewrite He.
  eexists _, _. split; [reflexivity|]. done.
Qed.

Lemma burst_invariant_step (next : http_Handler) (key : string) (r : http_Request)
    (km : Keyer) (n m i : nat) (σ : Cache.System) :
  burst_invariant next key r km n m σ → (i ≤ m)%nat →
  burst_invariant next key r km n m (Cache.step i σ).
Proof.
  intros (HP & g & Rs & D & Hpool & Hg & Hlen & HRs) Hi.
  destruct σ as [s pool]. cbn [Cache.world Cache.pool] in *. subst pool.
  destruct i as [|j].
  - unfold Cache.step. cbn [Cache.pool Cache.world lookup list_lookup].
    inversion Hg as [w Hp Hn HD|id Hp Hn HD|id e Hf Hp Hn HD|id Hp Hn HD|id Hp Hn HD];
      subst g D; simpl.
    + split; [done|]. eexists _, Rs, []. rewrite !app_nil_r.
      split_and!; [reflexivity| |done|done]. simpl. rewrite <- Hn. apply at_handler.
    + split; [done|]. eexists _, Rs, []. rewrite !app_nil_r.
      split_and!; [reflexivity| |done|done]. simpl. rewrite <- Hn.
      apply at_swap. by destruct (calls_lifecycle (next n r) (NewResponseCacher id))
        as (_ & -> & _).
    + split.
      * destruct HP as [Hkm _]. split; [done|]. exists e. simpl.
        rewrite lookup_insert_eq. split; [done|]. by rewrite Hf.
      * eexists _, Rs, []. rewrite !app_nil_r.
        split_and!; [reflexivity| |done|done]. simpl. rewrite <- Hn. apply at_go.
    + split; [done|]. eexists _, Rs, [_]. rewrite !app_nil_r.
      split_and!; [reflexivity| |done|done]. simpl. rewrite <- Hn. apply at_end.
    + split; [done|]. eexists _, Rs, [_]. split_and!; [reflexivity| |done|done].
      simpl. rewrite <- Hn. apply at_end.
  - assert (j < length Rs)%nat as Hj by lia.
    destruct (lookup_lt_is_Some_2 Rs j Hj) as [R HR].
    destruct (proj1 (Forall_lookup _ _) HRs j R HR) as (p & -> & Hp).
    unfold Cache.step. cbn [Cache.pool Cache.world].
    change ((Cache.Live g :: Rs ++ D) !! S j) with ((Rs ++ D) !! j).
    rewrite lookup_app_l by done. rewrite HR.
    destruct p as [|A a k|child k]; cbn [bystander] in Hp.
    + simpl. split; [done|]. by eexists g, Rs, D.
    + destruct (Hp s HP) as (x & s' & Ha & Hc & Hinv & _ & Hk).
      simpl. rewrite Ha. unfold burst_invariant. cbn [Cache.world Cache.pool].
      split; [by rewrite Hc|].
      exists g, (<[j := Cache.Live (k x)]> Rs), D.
      split_and!.
      * rewrite app_nil_r. simpl. by rewrite insert_app_l.
      * by rewrite Hinv.
      * by rewrite length_insert.
      * apply Forall_insert; [done|]. by exists (k x).
    + done.
Qed.

Lemma burst_invariant_exec (next : http_Handler) (key : string) (r : http_Request)
    (km : Keyer) (n m : nat) (sched : list nat) (σ : Cache.System) :
  burst_invariant next key r km n m σ → Forall (λ i, i ≤ m)%nat sched →
  burst_invariant next key r km n m (Cache.exec sched σ).
Proof.
  revert σ. induction sched as [|i sched IH]; intros σ Hσ Hs; [done|].
  apply Forall_cons in Hs as [Hi Hs]. rewrite exec_cons.
  apply IH; [|done]. by apply burst_invariant_step.
Qed.

(** X12. A burst during a regeneration, under any interleaving.  A stale
    entry has been marked regenerating and its regeneration started
    (goroutine 0), the request that did so still having to serve (goroutine
    1); any number of further requests for the key arrive.  Whatever the
    order in which these goroutines take their steps, as long as no decay
    goroutine takes one: no goroutine faults, the handler runs at most once
    (the regeneration's own invocation), the key keeps an entry that is
    fresh or marked regenerating, and the only goroutine started, if any, is
    the decay goroutine of the regeneration. *)
Theorem burst_during_regeneration (next : http_Handler) (r : http_Request) (key : string)
    (w0 : nat) (ws : list nat) (s : Cache.World) (i : Z) (sched : list nat) :
  Cache.status (Cache.cache s) key = (true, i, false, true) →
  (∀ w, w ∈ ws → Key (Cache.Keymaker (Cache.cache s)) w r = key) →
  Forall (λ j, j ≤ S (length ws))%nat sched →
  let σ := Cache.exec sched
             (Cache.mkSystem s
                (Cache.Live (Cache.regenerate next key w0 r Cache.Return)
                 :: Cache.Live (Cache.Atomic (Cache.c_serve key w0 true) (λ _, Cache.Return))
                 :: ((λ w, Cache.Live (Cache.Chain next w r)) <$> ws))) in
  (Cache.Crashed ∉ Cache.pool σ)
  ∧ (Cache.invocations (Cache.world σ) ≤ S (Cache.invocations s))%nat
  ∧ (∃ id f g, Cache.status (Cache.cache (Cache.world σ)) key = (true, id, f, g)
               ∧ f || g = true)
  ∧ (drop (S (S (length ws))) (Cache.pool σ) = []
     ∨ ∃ id, drop (S (S (length ws))) (Cache.pool σ) = [Cache.Live (Cache.decay key id)]).
Proof.
  intros Hst Hkey Hsched σ.
  assert (burst_invariant next key r (Cache.Keymaker (Cache.cache s)) (Cache.invocations s)
            (S (length ws)) σ) as (HP & g & Rs & D & Hpool & Hg & Hlen & HRs).
  { apply burst_invariant_exec; [|done]. split.
    - split; [done|]. apply status_exists in Hst as (e & He & _ & Hf & Hr).
      exists e. split; [done|]. by rewrite Hr, orb_true_r.
    - eexists _, (_ :: _), []. rewrite app_nil_r. cbn [Cache.pool Cache.world].
      split_and!; [reflexivity|apply at_rand| |].
      + simpl. by rewrite length_fmap.
      + apply Forall_cons. split; [eexists; split; [done|apply serve_bystander]|].
        apply Forall_fmap, Forall_forall. intros w Hw. eexists. split; [done|].
        apply Chain_bystander. by apply Hkey. }
  rewrite Hpool. split_and!.
  - intros Hin. apply elem_of_cons in Hin as [?|Hin]; [done|].
    apply elem_of_app in Hin as [Hin|Hin].
    + apply (proj1 (Forall_forall _ _) HRs) in Hin as (p & ? & _). done.
    + inversion Hg; subst; try (exfalso; exact (not_elem_of_nil _ Hin)).
      by apply list_elem_of_singleton in Hin.
  - inversion Hg; lia.
  - destruct HP as [_ (e & He & Hfg)]. exists (ResponseCacher.id e), (ResponseCacher.fresh e),
      (ResponseCacher.regen e). split; [|done]. unfold Cache.status. by rewrite He.
  - cbn [drop]. rewrite <- Hlen, drop_app_length.
    inversion Hg; subst; eauto.
Qed.

Lemma burst_during_regeneration_witness :
  let σ := Cache.exec [2; 0; 3; 2; 0; 1; 0; 3; 0; 2; 3; 0]%nat
             (Cache.mkSystem
                {| Cache.cache :=
                     Cache.swap one_entry "/a"
                       (ResponseCacher.set_regen true
                          (ResponseCacher.set_fresh false (NewResponseCacher 1)));
                   Cache.writers := ∅; Cache.invocations := 1; Cache.entropy := [22] |}
                (Cache.Live (Cache.regenerate hello "/a" 0 req Cache.Return)
                 :: Cache.Live (Cache.Atomic (Cache.c_serve "/a" 0 true) (λ _, Cache.Return))
                 :: ((λ w, Cache.Live (Cache.Chain hello w req)) <$> [1; 2]%nat))) in
  (Cache.Crashed ∉ Cache.pool σ)
  ∧ (Cache.invocations (Cache.world σ) ≤ 2)%nat
  ∧ (∃ id f g, Cache.status (Cache.cache (Cache.world σ)) "/a" = (true, id, f, g)
               ∧ f || g = true)
  ∧ (drop 4 (Cache.pool σ) = []
     ∨ ∃ id, drop 4 (Cache.pool σ) = [Cache.Live (Cache.decay "/a" id)]).
Proof.
  apply (burst_during_regeneration hello req "/a" 0 [1; 2]%nat
           {| Cache.cache :=
                Cache.swap one_entry "/a"
                  (ResponseCacher.set_regen true
                     (ResponseCacher.set_fresh false (NewResponseCacher 1)));
              Cache.writers := ∅; Cache.invocations := 1; Cache.entropy := [22] |}
           1 [2; 0; 3; 2; 0; 1; 0; 3; 0; 2; 3; 0]%nat).
  - reflexivity.
  - intros w _. reflexivity.
  - repeat constructor; lia.
Defined.

(** ** The life of an entry *)

Lemma run_decay_never_faults (key : string) (id : Z) (s : Cache.World) :
  ∃ c', Cache.run (Cache.decay key id) s = Some (Cache.set_cache c' s, [])
        ∧ (c' = Cache.cache s ∨ Cache.stale (Cache.cache s) key = Some c'
           ∨ c' = Cache.kill (Cache.cache s) key)
        ∧ ∀ key', key' ≠ key → Cache.caches c' !! key' = Cache.caches (Cache.cache s) !! key'.
Proof.
  destruct (Cache.caches (Cache.cache s) !! key) as [[e|]|] eqn:He.
  - destruct (decide (ResponseCacher.id e = id)) as [Hid|Hid].
    + destruct (ResponseCacher.regen e) eqn:Hg.
      * destruct (ResponseCacher.fresh e) eqn:Hf.
        -- (* fresh and regenerating: marked stale, not killed *)
           exists (Cache.set_caches (<[key := Some (ResponseCacher.set_fresh false e)]>
                     (Cache.caches (Cache.cache s))) (Cache.cache s)).
           split_and!.
           ++ unfold Cache.decay, Cache.decay_ttl, Cache.decay_ttd. run_simpl.
              unfold Cache.status at 1. rewrite He, Hf, Hid, Z.eqb_refl. run_simpl.
              unfold Cache.c_stale, Cache.stale. rewrite He. run_simpl.
              unfold Cache.status. simpl. rewrite lookup_insert_eq. simpl. rewrite Hg.
              by run_simpl.
           ++ right. left. unfold Cache.stale. by rewrite He.
           ++ intros key' Hne. simpl. by rewrite lookup_insert_ne.
        -- exists (Cache.cache s). split_and!; [|by left|done].
           rewrite run_decay_other; [by destruct s|].
           intros e' He'. rewrite He in He'. injection He' as <-. by right.
      * exists (Cache.kill (Cache.cache s) key).
        split_and!; [by eapply run_decay_own|by right; right|].
        intros key' Hne. simpl. by rewrite lookup_insert_ne.
    + exists (Cache.cache s). split_and!; [|by left|done].
      rewrite run_decay_other; [by destruct s|].
      intros e' He'. rewrite He in He'. injection He' as <-. by left.
  - exists (Cache.cache s). split_and!; [|by left|done].
    rewrite run_decay_other; [by destruct s|]. intros e' He'. by rewrite He in He'.
  - exists (Cache.cache s). split_and!; [|by left|done].
    rewrite run_decay_other; [by destruct s|]. intros e' He'. by rewrite He in He'.
Qed.

(** X13. A decay goroutine left alone never faults and starts no goroutine;
    it changes nothing but the entry under its own key (no writer, no other
    key, no invocation).  When that entry carries its id and is not being
    regenerated, the goroutine ends with the key killed: [status] reports no
    entry. *)
Theorem decay_alone_kills_own_entry (key : string) (id : Z) (s : Cache.World) :
  (∃ c', Cache.run (Cache.decay key id) s = Some (Cache.set_cache c' s, [])
         ∧ ∀ key', key' ≠ key →
             Cache.caches c' !! key' = Cache.caches (Cache.cache s) !! key')
  ∧ (∀ e, Cache.caches (Cache.cache s) !! key = Some (Some e) →
       ResponseCacher.id e = id → ResponseCacher.regen e = false →
       ∃ s', Cache.run (Cache.decay key id) s = Some (s', [])
             ∧ Cache.status (Cache.cache s') key = (false, 0, false, false)).
Proof.
  split.
  { destruct (run_decay_never_faults key id s) as (c' & Hrun & _ & Hframe). eauto. }
  intros e He Hid Hg. eexists. split; [by eapply run_decay_own|].
  unfold Cache.status. simpl. by rewrite lookup_insert_eq.
Qed.

Lemma decay_alone_kills_own_entry_witness :
  ∃ s', Cache.run (Cache.decay "/a" 1)
          {| Cache.cache := one_entry; Cache.writers := ∅; Cache.invocations := 1;
             Cache.entropy := [] |} = Some (s', [])
        ∧ Cache.status (Cache.cache s') "/a" = (false, 0, false, false).
Proof.
  destruct (decay_alone_kills_own_entry "/a" 1
              {| Cache.cache := one_entry; Cache.writers := ∅; Cache.invocations := 1;
                 Cache.entropy := [] |}) as [_ Hkill].
  apply (Hkill (NewResponseCacher 1)); reflexivity.
Defined.

(** X14. While a stale entry is marked regenerating: a request goroutine
    that runs without another goroutine in between serves it (marked) and
    neither marks nor regenerates; a decay goroutine of any id, run from its
    start, leaves the world as it is; and step by step, a decay goroutine of
    any id whose status check, of either half, finds the entry in this
    state goes on without calling [stale] or [kill].  A decay goroutine
    that took its status before the entry was marked is not covered. *)
Theorem regenerating_entry_waits_for_swap (next : http_Handler) (w : nat)
    (r : http_Request) (s : Cache.World) (i id : Z) (k : Cache.prog) :
  let key := Key (Cache.Keymaker (Cache.cache s)) w r in
  Cache.status (Cache.cache s) key = (true, i, false, true) →
  (∃ e, Cache.caches (Cache.cache s) !! key = Some (Some e)
        ∧ Cache.run (Cache.Chain next w r) s
          = Some (Cache.set_writers
                    (<[w := ResponseCacher.Serve e (Cache.writer s w) true]>
                       (Cache.writers s)) s, []))
  ∧ Cache.run (Cache.decay key id) s = Some (s, [])
  ∧ (∃ check, (∀ s0, Cache.step1 (Cache.decay_ttl key id k) s0 = Cache.Stepped check s0 [])
              ∧ Cache.step1 check s = Cache.Stepped k s [])
  ∧ (∃ check, (∀ s0, Cache.step1 (Cache.decay_ttd key id k) s0 = Cache.Stepped check s0 [])
              ∧ Cache.step1 check s = Cache.Stepped k s []).
Proof.
  intros key Hst. split_and!.
  - by apply (hit_request_serves next w r s i false true).
  - apply run_decay_other. intros e He. right.
    apply status_exists in Hst as (e' & He' & _ & Hf & Hg).
    rewrite He in He'. by injection He' as <-.
  - eexists. split; [reflexivity|]. simpl. by rewrite Hst.
  - eexists. split; [reflexivity|]. simpl. by rewrite Hst.
Qed.

Lemma regenerating_entry_waits_for_swap_witness :
  Cache.run (Cache.decay "/a" 1)
    {| Cache.cache :=
         Cache.swap one_entry "/a"
           (ResponseCacher.set_regen true
              (ResponseCacher.set_fresh false (NewResponseCacher 1)));
       Cache.writers := ∅; Cache.invocations := 1; Cache.entropy := [] |}
  = Some ({| Cache.cache :=
               Cache.swap one_entry "/a"
                 (ResponseCacher.set_regen true
                    (ResponseCacher.set_fresh false (NewResponseCacher 1)));
             Cache.writers := ∅; Cache.invocations := 1; Cache.entropy := [] |}, []).
Proof.
  destruct (regenerating_entry_waits_for_swap hello 0 req
           {| Cache.cache :=
                Cache.swap one_entry "/a"
                  (ResponseCacher.set_regen true
                     (ResponseCacher.set_fresh false (NewResponseCacher 1)));
              Cache.writers := ∅; Cache.invocations := 1; Cache.entropy := [] |} 1 1
           Cache.Return (reflexivity _)) as (_ & Hdecay & _).
  exact Hdecay.
Defined.



(** X16. Fill, decay, fill again.  After a request has filled a missing key
    and the decay goroutine it scheduled has run with no request in between,
    the key has no entry again; the next request for the key is a miss once
    more: it invokes the handler a second time and serves what that second
    invocation wrote, unmarked. *)
Theorem miss_after_decay_refills (next : http_Handler) (w w' : nat)
    (r r' : http_Request) (s : Cache.World) :
  let key := Key (Cache.Keymaker (Cache.cache s)) w r in
  Key (Cache.Keymaker (Cache.cache s)) w' r' = key →
  Cache.status (Cache.cache s) key = (false, 0, false, false) →
  ∃ s1 d s2 s3 d',
    Cache.run (Cache.Chain next w r) s = Some (s1, [d])
    ∧ Cache.run d s1 = Some (s2, [])
    ∧ Cache.status (Cache.cache s2) key = (false, 0, false, false)
    ∧ Cache.run (Cache.Chain next w' r') s2 = Some (s3, [d'])
    ∧ Cache.invocations s3 = S (S (Cache.invocations s))
    ∧ Cache.writers s3
      = <[w' := ResponseCacher.Serve
                  (ResponseCacher.calls (next (S (Cache.invocations s)) r')
                     (NewResponseCacher (hd 0 (tl (Cache.entropy s)) `mod` 1000000)))
                  (Cache.writer s1 w') false]> (Cache.writers s1).
Proof.
  intros key Hkey Hst.
  pose proof (run_Chain_miss next w r s 0 false false Hst) as Hrun1.
  cbv zeta in Hrun1. fold key in Hrun1.
  set (id := hd 0 (Cache.entropy s) `mod` 1000000) in *.
  set (e := ResponseCacher.calls (next (Cache.invocations s) r) (NewResponseCacher id)) in *.
  set (s1 := Cache.mkWorld _ _ _ _) in Hrun1.
  destruct (calls_lifecycle (next (Cache.invocations s) r) (NewResponseCacher id))
    as (Hid & Hf & Hg). fold e in Hid, Hf, Hg.
  assert (Cache.run (Cache.decay key id) s1
          = Some (Cache.set_cache (Cache.kill (Cache.cache s1) key) s1, [])) as Hrun2.
  { apply (run_decay_own key id s1 e); [|done..].
    unfold s1, Cache.swap. simpl. by rewrite lookup_insert_eq. }
  set (s2 := Cache.set_cache _ s1) in Hrun2.
  assert (Cache.status (Cache.cache s2) key = (false, 0, false, false)) as Hst2.
  { unfold Cache.status, s2. simpl. by rewrite lookup_insert_eq. }
  assert (Key (Cache.Keymaker (Cache.cache s2)) w' r' = key) as Hkey2 by exact Hkey.
  pose proof (run_Chain_miss next w' r' s2 0 false false) as Hrun3.
  cbv zeta in Hrun3. rewrite Hkey2 in Hrun3. specialize (Hrun3 Hst2).
  eexists s1, _, s2, _, _. split; [exact Hrun1|]. split; [exact Hrun2|].
  split; [exact Hst2|]. split; [exact Hrun3|]. done.
Qed.

Lemma miss_after_decay_refills_witness :
  ∃ s1 d s2 s3 d',
    Cache.run (Cache.Chain hello 0 req) (Cache.world (burst 0)) = Some (s1, [d])
    ∧ Cache.run d s1 = Some (s2, [])
    ∧ Cache.status (Cache.cache s2) "/a" = (false, 0, false, false)
    ∧ Cache.run (Cache.Chain hello 1 req) s2 = Some (s3, [d'])
    ∧ Cache.invocations s3 = 2%nat
    ∧ Cache.writers s3
      = <[1%nat := ResponseCacher.Serve
                  (ResponseCacher.calls (hello 1%nat req) (NewResponseCacher 22))
                  (Cache.writer s1 1) false]> (Cache.writers s1).
Proof.
  exact (miss_after_decay_refills hello 0 1 req req (Cache.world (burst 0))
           eq_refl eq_refl).
Defined.

(** X17. Handled one goroutine at a time, the store keeps its lifecycle
    invariant (a regenerating entry is stale): if it holds before a request,
    a regeneration or a decay goroutine runs alone to its end, it holds
    after. *)
Theorem serial_goroutines_keep_invariant (next : http_Handler) (w : nat)
    (r : http_Request) (key : string) (id : Z) (s s' : Cache.World)
    (l : list Cache.prog) :
  regen_implies_stale (Cache.cache s) →
  (Cache.run (Cache.Chain next w r) s = Some (s', l) → regen_implies_stale (Cache.cache s'))
  ∧ (Cache.run (Cache.regenerate next key w r Cache.Return) s = Some (s', l) →
     regen_implies_stale (Cache.cache s'))
  ∧ (Cache.run (Cache.decay key id) s = Some (s', l) → regen_implies_stale (Cache.cache s')).
Proof.
  intros Hinv. split_and!.
  - destruct (Cache.status (Cache.cache s) (Key (Cache.Keymaker (Cache.cache s)) w r))
      as [[[ex sid] f] g] eqn:Hst.
    destruct ex.
    + destruct (negb f && negb g) eqn:Hfg.
      * assert (f = false ∧ g = false) as [-> ->] by (by destruct f, g).
        destruct (stale_request_refreshes next w r s sid Hst) as (e & He & Hrun).
        rewrite Hrun. intros [= <- <-]. simpl.
        eapply (invariant_regen (Cache.cache s)); [done|exact Hst|].
        unfold Cache.regen. by rewrite He.
      * destruct (hit_request_serves next w r s sid f g Hst) as (e & He & Hrun).
        { by destruct f, g. }
        rewrite Hrun. by intros [= <- <-].
    + rewrite (run_Chain_miss next w r s sid f g Hst). intros [= <- <-]. simpl.
      by apply invariant_swap.
  - rewrite run_regenerate. cbn [Cache.run]. intros [= <- <-]. simpl.
    by apply invariant_swap.
  - destruct (run_decay_never_faults key id s) as (c' & Hrun & Hshape & _).
    rewrite Hrun. intros [= <- <-]. simpl.
    destruct Hshape as [->|[Hstale| ->]];
      [done|by eapply invariant_stale|by apply invariant_kill].
Qed.

Lemma serial_goroutines_keep_invariant_witness :
  regen_implies_stale
    (Cache.swap (Cache.NewCache Keymaker 250 750) "/a"
       (ResponseCacher.calls (hello 0%nat req) (NewResponseCacher 11))).
Proof.
  destruct (serial_goroutines_keep_invariant hello 0 req "/a" 11 (Cache.world (burst 0))
              {| Cache.cache :=
                   Cache.swap (Cache.NewCache Keymaker 250 750) "/a"
                     (ResponseCacher.calls (hello 0%nat req) (NewResponseCacher 11));
                 Cache.writers :=
                   {[ 0%nat := ResponseCacher.Serve
                        (ResponseCacher.calls (hello 0%nat req) (NewResponseCacher 11))
                        newWriter false ]};
                 Cache.invocations := 1; Cache.entropy := [22; 33] |}
              [Cache.decay "/a" 11] (invariant_NewCache Keymaker 250 750))
    as (Hchain & _).
  apply Hchain. reflexivity.
Defined.

(** X18. The timers tell generations apart by id alone, and the id is a
    random number below a million.  If two regenerations of a key draw the
    same id, the decay goroutine of the first, run after the second has
    swapped its entry in, takes that entry for its own and kills it. *)
Theorem same_id_timer_kills_new_entry (next : http_Handler) (key : string)
    (w w' : nat) (r r' : http_Request) (s : Cache.World) (x x' : Z) (rest : list Z) :
  Cache.entropy s = x :: x' :: rest →
  x `mod` 1000000 = x' `mod` 1000000 →
  ∃ s1 d1 s2 d2 s3,
    Cache.run (Cache.regenerate next key w r Cache.Return) s = Some (s1, [d1])
    ∧ Cache.run (Cache.regenerate next key w' r' Cache.Return) s1 = Some (s2, [d2])
    ∧ Cache.caches (Cache.cache s2) !! key
      = Some (Some (ResponseCacher.calls (next (S (Cache.invocations s)) r')
                      (NewResponseCacher (x' `mod` 1000000))))
    ∧ Cache.run d1 s2 = Some (s3, [])
    ∧ Cache.status (Cache.cache s3) key = (false, 0, false, false).
Proof.
  intros Hent Hx.
  set (e1 := ResponseCacher.calls (next (Cache.invocations s) r)
               (NewResponseCacher (x `mod` 1000000))).
  set (e2 := ResponseCacher.calls (next (S (Cache.invocations s)) r')
               (NewResponseCacher (x' `mod` 1000000))).
  set (s1 := Cache.mkWorld (Cache.swap (Cache.cache s) key e1) (Cache.writers s)
               (S (Cache.invocations s)) (x' :: rest)).
  set (s2 := Cache.mkWorld (Cache.swap (Cache.cache s1) key e2) (Cache.writers s)
               (S (S (Cache.invocations s))) rest).
  exists s1, (Cache.decay key (x `mod` 1000000)), s2, (Cache.decay key (x' `mod` 1000000)),
    (Cache.set_cache (Cache.kill (Cache.cache s2) key) s2).
  destruct (calls_lifecycle (next (S (Cache.invocations s)) r')
              (NewResponseCacher (x' `mod` 1000000))) as (Hid & Hf & Hg).
  fold e2 in Hid, Hf, Hg.
  assert (Cache.caches (Cache.cache s2) !! key = Some (Some e2)) as He2.
  { unfold s2, Cache.swap. simpl. by rewrite lookup_insert_eq. }
  split_and!.
  - rewrite run_regenerate. cbn [Cache.run]. by rewrite Hent.
  - by rewrite run_regenerate.
  - exact He2.
  - apply (run_decay_own key _ s2 e2); [done| |done]. rewrite Hid. simpl. by symmetry.
  - unfold Cache.status. simpl. by rewrite lookup_insert_eq.
Qed.

Lemma same_id_timer_kills_new_entry_witness :
  ∃ s1 d1 s2 d2 s3,
    Cache.run (Cache.regenerate hello "/a" 0 req Cache.Return)
      {| Cache.cache := Cache.NewCache Keymaker 250 750; Cache.writers := ∅;
         Cache.invocations := 0; Cache.entropy := [7; 1000007] |} = Some (s1, [d1])
    ∧ Cache.run (Cache.regenerate hello "/a" 1 req Cache.Return) s1 = Some (s2, [d2])
    ∧ Cache.caches (Cache.cache s2) !! "/a"
      = Some (Some (ResponseCacher.calls (hello 1%nat req)
                      (NewResponseCacher (1000007 `mod` 1000000))))
    ∧ Cache.run d1 s2 = Some (s3, [])
    ∧ Cache.status (Cache.cache s3) "/a" = (false, 0, false, false).
Proof.
  exact (same_id_timer_kills_new_entry hello "/a" 0 1 req req
           {| Cache.cache := Cache.NewCache Keymaker 250 750; Cache.writers := ∅;
              Cache.invocations := 0; Cache.entropy := [7; 1000007] |}
           7 1000007 [] eq_refl eq_refl).
Defined.

(** X19. The vanilla [Keymaker] keys on the url path alone.  Once a request
    has filled the cache, a request for the same path with another query
    string is a hit: the handler is not invoked for it, and it is served,
    marked, the response recorded for the first request. *)
Theorem query_string_shares_entry (next : http_Handler) (w w' : nat)
    (r r' : http_Request) (s : Cache.World) :
  Cache.Keymaker (Cache.cache s) = Keymaker →
  URL_Path r' = URL_Path r →
  Cache.status (Cache.cache s) (URL_Path r) = (false, 0, false, false) →
  ∃ s1 d s2,
    Cache.run (Cache.Chain next w r) s = Some (s1, [d])
    ∧ Cache.run (Cache.Chain next w' r') s1 = Some (s2, [])
    ∧ Cache.invocations s2 = S (Cache.invocations s)
    ∧ Cache.writers s2
      = <[w' := ResponseCacher.Serve
                  (ResponseCacher.calls (next (Cache.invocations s) r)
                     (NewResponseCacher (hd 0 (Cache.entropy s) `mod` 1000000)))
                  (Cache.writer s1 w') true]> (Cache.writers s1).
Proof.
  intros Hkm Hpath Hst.
  pose proof (run_Chain_miss next w r s 0 false false) as Hrun1.
  cbv zeta in Hrun1. rewrite Hkm in Hrun1. specialize (Hrun1 Hst).
  set (e := ResponseCacher.calls _ _) in *.
  set (s1 := Cache.mkWorld _ _ _ _) in Hrun1.
  destruct (calls_lifecycle (next (Cache.invocations s) r)
              (NewResponseCacher (hd 0 (Cache.entropy s) `mod` 1000000)))
    as (Hid & Hf & Hg). fold e in Hid, Hf, Hg.
  assert (Key (Cache.Keymaker (Cache.cache s1)) w' r' = URL_Path r) as Hkey.
  { unfold s1. simpl. rewrite Hkm. exact Hpath. }
  destruct (hit_request_serves next w' r' s1 (ResponseCacher.id e) true false)
    as (e' & He' & Hrun2).
  { rewrite Hkey. unfold Cache.status, s1. simpl. rewrite lookup_insert_eq.
    by rewrite Hf, Hg. }
  { done. }
  rewrite Hkey in He'. unfold s1 in He'. simpl in He'.
  rewrite lookup_insert_eq in He'. injection He' as <-.
  eexists s1, _, _. split; [exact Hrun1|]. split; [exact Hrun2|]. done.
Qed.

Lemma query_string_shares_entry_witness :
  ∃ s1 d s2,
    Cache.run (Cache.Chain hello 0 req) (Cache.world (burst 0)) = Some (s1, [d])
    ∧ Cache.run (Cache.Chain hello 1 {| URL_Path := "/a"; URL_RawQuery := "page=2" |}) s1
      = Some (s2, [])
    ∧ Cache.invocations s2 = 1%nat
    ∧ Cache.writers s2
      = <[1%nat := ResponseCacher.Serve
                  (ResponseCacher.calls (hello 0%nat req) (NewResponseCacher 11))
                  (Cache.writer s1 1) true]> (Cache.writers s1).
Proof.
  exact (query_string_shares_entry hello 0 1 req
           {| URL_Path := "/a"; URL_RawQuery := "page=2" |} (Cache.world (burst 0))
           eq_refl eq_refl eq_refl).
Defined.

(** ** Goroutines interleaved *)

Lemma step_Atomic {A : Type} (i : nat) (σ : Cache.System) (a : Cache.action A)
    (k : A → Cache.prog) (x : A) (s' : Cache.World) :
  Cache.pool σ !! i = Some (Cache.Live (Cache.Atomic a k)) →
  a (Cache.world σ) = Some (x, s') →
  Cache.step i σ = Cache.mkSystem s' (<[i := Cache.Live (k x)]> (Cache.pool σ)).
Proof.
  intros Hi Ha. unfold Cache.step. rewrite Hi. simpl. rewrite Ha. simpl.
  by rewrite app_nil_r.
Qed.

Lemma step_Go (i : nat) (σ : Cache.System) (child k : Cache.prog) :
  Cache.pool σ !! i = Some (Cache.Live (Cache.Go child k)) →
  Cache.step i σ
  = Cache.mkSystem (Cache.world σ) (<[i := Cache.Live k]> (Cache.pool σ) ++ [Cache.Live child]).
Proof. intros Hi. unfold Cache.step. by rewrite Hi. Qed.

Ltac exec_atomic :=
  rewrite exec_cons; erewrite step_Atomic; [|reflexivity|reflexivity];
  cbn [Cache.pool Cache.world insert list_insert].
Ltac exec_go :=
  rewrite exec_cons; erewrite step_Go; [|reflexivity];
  cbn [Cache.pool Cache.world insert list_insert app].

Ltac exec_serve :=
  rewrite exec_cons; erewrite step_Atomic;
  [|reflexivity
   |unfold Cache.c_serve, Cache.serve, Cache.swap; simpl;
    rewrite lookup_insert_eq; reflexivity];
  cbn [Cache.pool Cache.world insert list_insert].

(** X20. There is no stampede guard on a cold key.  Two requests for a key
    with no entry, both past their status check before either has swapped,
    each run the handler: two downstream invocations, two decay goroutines,
    each request served its own recording, unmarked, and the entry left in
    the store is the one swapped in last. *)
Theorem cold_start_stampede (next : http_Handler) (w0 w1 : nat) (r : http_Request)
    (s : Cache.World) :
  let key := Key (Cache.Keymaker (Cache.cache s)) w0 r in
  Key (Cache.Keymaker (Cache.cache s)) w1 r = key →
  Cache.status (Cache.cache s) key = (false, 0, false, false) →
  let id0 := hd 0 (Cache.entropy s) `mod` 1000000 in
  let id1 := hd 0 (tl (Cache.entropy s)) `mod` 1000000 in
  let e0 := ResponseCacher.calls (next (Cache.invocations s) r) (NewResponseCacher id0) in
  let e1 := ResponseCacher.calls (next (S (Cache.invocations s)) r) (NewResponseCacher id1) in
  let σ := Cache.exec cold_start
             {| Cache.world := s;
                Cache.pool := [Cache.Live (Cache.Chain next w0 r);
                               Cache.Live (Cache.Chain next w1 r)] |} in
  Cache.invocations (Cache.world σ) = S (S (Cache.invocations s))
  ∧ Cache.pool σ
    = [Cache.Live Cache.Return; Cache.Live Cache.Return;
       Cache.Live (Cache.decay key id0); Cache.Live (Cache.decay key id1)]
  ∧ Cache.caches (Cache.cache (Cache.world σ)) !! key = Some (Some e1)
  ∧ Cache.writers (Cache.world σ)
    = <[w1 := ResponseCacher.Serve e1
                (default newWriter
                   (<[w0 := ResponseCacher.Serve e0 (Cache.writer s w0) false]>
                      (Cache.writers s) !! w1)) false]>
        (<[w0 := ResponseCacher.Serve e0 (Cache.writer s w0) false]> (Cache.writers s)).
Proof.
  intros key Hkey Hst id0 id1 e0 e1 σ. unfold σ, cold_start.
  exec_atomic. fold key. exec_atomic. rewrite Hst. cbn [negb].
  exec_atomic. rewrite Hkey. exec_atomic. rewrite Hst. cbn [negb].
  exec_atomic. exec_atomic. exec_atomic. exec_go. exec_serve.
  exec_atomic. exec_atomic. exec_atomic. exec_go. exec_serve.
  unfold Cache.exec. simpl. rewrite lookup_insert_eq. done.
Qed.

Lemma cold_start_stampede_witness :
  Cache.invocations (Cache.world (Cache.exec cold_start (burst 2))) = 2%nat
  ∧ Cache.pool (Cache.exec cold_start (burst 2))
    = [Cache.Live Cache.Return; Cache.Live Cache.Return;
       Cache.Live (Cache.decay "/a" 11); Cache.Live (Cache.decay "/a" 22)].
Proof.
  destruct (cold_start_stampede hello 0 1 req (Cache.world (burst 2)) eq_refl eq_refl)
    as (Hinv & Hpool & _).
  split; [exact Hinv|exact Hpool].
Defined.

(** X21. Regenerations of one key are not ordered.  When the regeneration
    that ran the handler first swaps last, its older recording replaces the
    newer one: the store ends with the output of the earlier invocation,
    though the later one had been installed before. *)
Theorem slow_regeneration_overwrites_newer (next : http_Handler) (key : string)
    (w0 w1 : nat) (r0 r1 : http_Request) (s : Cache.World) :
  let id0 := hd 0 (Cache.entropy s) `mod` 1000000 in
  let id1 := hd 0 (tl (Cache.entropy s)) `mod` 1000000 in
  let e0 := ResponseCacher.calls (next (Cache.invocations s) r0) (NewResponseCacher id0) in
  let e1 := ResponseCacher.calls (next (S (Cache.invocations s)) r1) (NewResponseCacher id1) in
  let σ0 := {| Cache.world := s;
               Cache.pool := [Cache.Live (Cache.regenerate next key w0 r0 Cache.Return);
                              Cache.Live (Cache.regenerate next key w1 r1 Cache.Return)] |} in
  Cache.caches (Cache.cache (Cache.world (Cache.exec (take 6 overtaken) σ0))) !! key
  = Some (Some e1)
  ∧ Cache.caches (Cache.cache (Cache.world (Cache.exec overtaken σ0))) !! key
    = Some (Some e0)
  ∧ Cache.invocations (Cache.world (Cache.exec overtaken σ0)) = S (S (Cache.invocations s))
  ∧ Cache.pool (Cache.exec overtaken σ0)
    = [Cache.Live Cache.Return; Cache.Live Cache.Return;
       Cache.Live (Cache.decay key id1); Cache.Live (Cache.decay key id0)].
Proof.
  intros id0 id1 e0 e1 σ0. unfold σ0, overtaken. cbn [take].
  split.
  { exec_atomic. exec_atomic. exec_atomic. exec_atomic. exec_atomic. exec_go.
    unfold Cache.exec. simpl. by rewrite lookup_insert_eq. }
  exec_atomic. exec_atomic. exec_atomic. exec_atomic. exec_atomic. exec_go.
  exec_atomic. exec_go.
  unfold Cache.exec. simpl. by rewrite lookup_insert_eq.
Qed.

Ltac exec_stale :=
  rewrite exec_cons; erewrite step_Atomic;
  [|reflexivity
   |unfold Cache.c_stale, Cache.stale, Cache.swap; simpl;
    rewrite lookup_insert_eq; reflexivity];
  cbn [Cache.pool Cache.world insert list_insert].

(** X22. The decay guard is taken before the mark, in a critical section
    of its own.  A timer that has found its own fresh entry, and is
    overtaken by a regeneration's swap before it calls [stale], marks the
    entry just swapped in: the new entry is stale from the start, whatever
    its id. *)
Theorem overtaken_timer_marks_new_entry (next : http_Handler) (key : string)
    (w : nat) (r : http_Request) (s : Cache.World) (id : Z) (g : bool) :
  Cache.status (Cache.cache s) key = (true, id, true, g) →
  let id' := hd 0 (Cache.entropy s) `mod` 1000000 in
  let e' := ResponseCacher.calls (next (Cache.invocations s) r) (NewResponseCacher id') in
  let σ := Cache.exec overtaken_timer
             {| Cache.world := s;
                Cache.pool := [Cache.Live (Cache.decay key id);
                               Cache.Live (Cache.regenerate next key w r Cache.Return)] |} in
  Cache.caches (Cache.cache (Cache.world σ)) !! key
  = Some (Some (ResponseCacher.set_fresh false e'))
  ∧ Cache.status (Cache.cache (Cache.world σ)) key = (true, id', false, false).
Proof.
  intros Hst id' e' σ. subst id' e' σ. unfold overtaken_timer.
  exec_atomic. exec_atomic. rewrite Hst. cbn [andb]. rewrite Z.eqb_refl.
  exec_atomic. exec_atomic. exec_atomic. exec_stale.
  unfold Cache.exec, Cache.status. simpl. rewrite lookup_insert_eq. split; [done|].
  destruct (calls_lifecycle (next (Cache.invocations s) r)
              (NewResponseCacher (hd 0 (Cache.entropy s) `mod` 1000000)))
    as (Hid & _ & Hg).
  unfold ResponseCacher.set_fresh.
  cbn [ResponseCacher.id ResponseCacher.fresh ResponseCacher.regen].
  by rewrite Hid, Hg.
Qed.

Lemma overtaken_timer_marks_new_entry_witness :
  Cache.status
    (Cache.cache (Cache.world (Cache.exec overtaken_timer
       {| Cache.world :=
            {| Cache.cache := one_entry; Cache.writers := ∅; Cache.invocations := 1;
               Cache.entropy := [22] |};
          Cache.pool := [Cache.Live (Cache.decay "/a" 1);
                         Cache.Live (Cache.regenerate hello "/a" 0 req Cache.Return)] |})))
    "/a"
  = (true, 22, false, false).
Proof.
  apply (overtaken_timer_marks_new_entry hello "/a" 0 req
           {| Cache.cache := one_entry; Cache.writers := ∅; Cache.invocations := 1;
              Cache.entropy := [22] |} 1 false eq_refl).
Defined.
